(** * IMDb TSV loader (main.py): a shallow embedding and its properties

    The loader reads three tab-separated files and streams each of them
    into PostgreSQL with COPY ... FROM STDIN.  This development embeds
    main.py function by function:

    - [Py]: the Python built-ins the script relies on (str methods, the
      UTF-8 codec, text-mode readline, os.path.basename, the [{:,}] format);
    - [Sql]: the statements the script sends, the interface of the host it
      runs on (files, the gzip module, the database server) and what the
      loader takes for granted of the server;
    - [Loader]: main.py itself, over a small state-and-exception monad;
    - [ExampleServer], [Gzip], [Examples]: one small server, one gzip
      reader and a few files, to run the loader on;
    - the properties of the loader. *)

From Stdlib Require Import NArith ZArith Ascii String DecimalString Lia.
From Stdlib.Strings Require Import Byte.
From stdpp Require Import base option list gmap.

Local Open Scope N_scope.

(** ** Python built-ins *)

Module Py.

(** A Python [str] is a sequence of Unicode code points. *)
Definition str := list N.

(** [bytes] objects and the raw contents of files. *)
Definition bytes := list byte.

(** ASCII literals of the source text. *)
Definition lit (s : string) : str :=
  (λ a, N_of_ascii a) <$> list_ascii_of_string s.

Definition TAB : N := 9.
Definition LF : N := 10.
Definition CR : N := 13.
Definition BACKSLASH : N := 92.

(** [str.isspace] on one code point: the characters [str.strip()] removes
    when called without argument. *)
Definition isspace (c : N) : bool :=
  ((9 <=? c) && (c <=? 13)) || ((28 <=? c) && (c <=? 32))
  || (c =? 133) || (c =? 160) || (c =? 5760)
  || ((8192 <=? c) && (c <=? 8202))
  || (c =? 8232) || (c =? 8233) || (c =? 8239) || (c =? 8287)
  || (c =? 12288).

Fixpoint lstrip (s : str) : str :=
  match s with
  | c :: s' => if isspace c then lstrip s' else s
  | [] => []
  end.

Definition rstrip (s : str) : str := reverse (lstrip (reverse s)).

(** [s.strip()] *)
Definition strip (s : str) : str := rstrip (lstrip s).

(** [sep.join(parts)] *)
Fixpoint join (sep : str) (parts : list str) : str :=
  match parts with
  | [] => []
  | [p] => p
  | p :: ps => p ++ sep ++ join sep ps
  end.

(** [s.endswith(suffix)] *)
Definition endswith (s suffix : str) : bool :=
  bool_decide (drop (length s - length suffix)%nat s = suffix).

(** [f.readline()] on a text stream opened with [newline=""]: universal
    newlines are recognised (LF, CR, CR LF) and returned untranslated.
    The result is the line, terminator included, and what is left of the
    stream. *)
Fixpoint readline (s : str) : str * str :=
  match s with
  | [] => ([], [])
  | c :: rest =>
      if c =? LF then ([c], rest)
      else if c =? CR then
        match rest with
        | c' :: rest' => if c' =? LF then ([c; c'], rest') else ([c], rest)
        | [] => ([c], [])
        end
      else let '(l, r) := readline rest in (c :: l, r)
  end.

(** Line ends as [readline] sees them. *)
Inductive terminator : str → Prop :=
  | term_eof : terminator []
  | term_lf : terminator [LF]
  | term_cr : terminator [CR]
  | term_crlf : terminator [CR; LF].

(** [os.path.basename] (posixpath): everything after the last slash. *)
Fixpoint basename (p : str) : str :=
  match p with
  | [] => []
  | c :: p' =>
      if bool_decide (47 ∈ p') then basename p'
      else if c =? 47 then p' else p
  end.

(** Decimal digits of a natural number, as a [str]. *)
Definition digits (n : N) : str :=
  lit (NilZero.string_of_uint (N.to_uint n)).

(** Groups of three counted from the right, separated by commas; the
    argument is the reversed digit string. *)
Fixpoint group3_rev (ds : str) : str :=
  match ds with
  | a :: b :: c :: ((_ :: _) as more) => a :: b :: c :: 44 :: group3_rev more
  | _ => ds
  end.

(** [format(n, ",")] for an [int]. *)
Definition format_comma (n : Z) : str :=
  let body := reverse (group3_rev (reverse (digits (Z.abs_N n)))) in
  if (n <? 0)%Z then 45 :: body else body.

(** *** The UTF-8 codec, [errors="strict"] *)

Definition continuation (b : N) : bool := (128 <=? b) && (b <=? 191).

Fixpoint utf8_decode (bs : bytes) : option str :=
  match bs with
  | [] => Some []
  | b0 :: bs1 =>
      let x0 := Byte.to_N b0 in
      if x0 <? 128 then cons x0 <$> utf8_decode bs1
      else
        match bs1 with
        | [] => None
        | b1 :: bs2 =>
            let x1 := Byte.to_N b1 in
            if negb (continuation x1) then None
            else if (194 <=? x0) && (x0 <=? 223) then
              cons ((x0 - 192) * 64 + (x1 - 128)) <$> utf8_decode bs2
            else
              match bs2 with
              | [] => None
              | b2 :: bs3 =>
                  let x2 := Byte.to_N b2 in
                  if negb (continuation x2) then None
                  else if (224 <=? x0) && (x0 <=? 239) then
                    let cp := (x0 - 224) * 4096 + (x1 - 128) * 64 + (x2 - 128) in
                    if (cp <? 2048) || ((55296 <=? cp) && (cp <=? 57343))
                    then None
                    else cons cp <$> utf8_decode bs3
                  else
                    match bs3 with
                    | [] => None
                    | b3 :: bs4 =>
                        let x3 := Byte.to_N b3 in
                        if negb (continuation x3) then None
                        else if (240 <=? x0) && (x0 <=? 244) then
                          let cp := (x0 - 240) * 262144 + (x1 - 128) * 4096
                                    + (x2 - 128) * 64 + (x3 - 128) in
                          if (cp <? 65536) || (1114111 <? cp) then None
                          else cons cp <$> utf8_decode bs4
                        else None
                    end
              end
        end
  end.

(** [s.encode("utf-8")]: a code point below 128 is one byte, below 2048
    two, below 65536 three, else four; the first byte carries the length
    and the high bits, each further byte six bits behind the mark 10.
    Only Unicode scalar values encode (a surrogate raises). *)
Definition scalar (c : N) : bool :=
  (c <? 55296) || ((57343 <? c) && (c <? 1114112)).

Definition byte_of_N (n : N) : byte := default x00 (Byte.of_N n).

Definition encode_char (c : N) : bytes :=
  if c <? 128 then [byte_of_N c]
  else if c <? 2048 then
    [byte_of_N (192 + c / 64); byte_of_N (128 + c mod 64)]
  else if c <? 65536 then
    [byte_of_N (224 + c / 4096); byte_of_N (128 + (c / 64) mod 64);
     byte_of_N (128 + c mod 64)]
  else
    [byte_of_N (240 + c / 262144); byte_of_N (128 + (c / 4096) mod 64);
     byte_of_N (128 + (c / 64) mod 64); byte_of_N (128 + c mod 64)].

Definition utf8_encode (s : str) : option bytes :=
  if forallb scalar s then Some (concat (encode_char <$> s)) else None.

(** Bytes of an ASCII literal, for writing file contents. *)
Definition ascii_bytes (s : string) : bytes := list_byte_of_string s.

End Py.

Import Py.

(** ** Statements and the host *)

Module Sql.

Inductive coltype := TEXT | INTEGER | SMALLINT | NUMERIC (precision scale : N).

Record column_def := ColumnDef {
  col_name : str;
  col_type : coltype;
  col_primary_key : bool
}.

(** The statements main.py composes with psycopg2's [sql] module.  Each
    constructor stands for one template of the source with its
    [sql.Identifier] arguments filled in; the keywords of a template that
    are fixed text are part of the constructor's meaning, the options it
    spells out are arguments. *)
Inductive stmt :=
  | CreateSchemaIfNotExists (schema : str)
  | CreateTableIfNotExists (schema table : str) (columns : list column_def)
  | CreateIndexIfNotExists (index schema table column : str) (descending : bool)
  | TruncateTable (schema table : str)
  | CopyFromStdinText (schema table : str) (columns : list str)
                      (delimiter null : str)
  | SelectCount (schema table : str).

(** What a cursor sends to the server. *)
Inductive request :=
  | Execute (q : stmt)
  | CopyExpert (q : stmt) (data : str).

(** Everything outside the script: the local files, Python's gzip module
    and the PostgreSQL server behind the DSN.  [gunzip] is [None] where
    the gzip module raises; [pg_execute] answers with the new database and
    the first column of the first row of the result set, if there is one;
    [pg_copy] is COPY ... FROM STDIN fed with [data]. *)
Class Host := {
  read_file : str → option bytes;
  gunzip : bytes → option bytes;
  pg_db : Type;
  pg_connect : str → str + pg_db;
  pg_execute : stmt → pg_db → str + pg_db * option Z;
  pg_copy : stmt → str → pg_db → str + pg_db
}.

(** What the loader takes for granted of the server, for the properties
    that speak of the rows of a table.  [stored] reads the rows of a
    table off a database: a row is a finite map from column names to
    values, and a column that is NULL is absent from it.  [records] is
    the server's reading of COPY data in text format, for a delimiter, as
    rows of fields.

    [copy_appends]: a COPY ... FROM STDIN that succeeds appends one row
    per record to the table it names, and in each row the column that
    stands at a field's place in the column list is NULL exactly when the
    field is the NULL marker of the statement. *)
Definition copy_appends `{Host} {V : Type}
    (stored : pg_db → str → str → list (gmap str V))
    (records : str → str → list (list str)) : Prop :=
  ∀ schema table cols delimiter null data db db',
    pg_copy (CopyFromStdinText schema table cols delimiter null) data db
    = inr db' →
    ∃ new,
      stored db' schema table = stored db schema table ++ new
      ∧ Forall2
          (λ (fields : list str) (r : gmap str V),
             ∀ i c field,
               cols !! i = Some c → fields !! i = Some field →
               (r !! c = None ↔ field = null))
          (records delimiter data) new.

(** [count_answers]: SELECT COUNT of a table changes nothing and answers
    the number of rows of the table. *)
Definition count_answers `{Host} {V : Type}
    (stored : pg_db → str → str → list (gmap str V)) : Prop :=
  ∀ schema table db db' r,
    pg_execute (SelectCount schema table) db = inr (db', r) →
    db' = db ∧ r = Some (Z.of_nat (length (stored db schema table))).

End Sql.

Import Sql.

(** ** main.py *)

Module Loader.

Inductive exn :=
  | KeyError (key : str)
  | FileNotFoundError (path : str)
  | BadGzipFile
  | UnicodeDecodeError
  | TypeError
  | DatabaseError (msg : str)
  | SystemExit (code : Z).

Definition NAME_COLS : list str :=
  [lit "nconst"; lit "primaryName"; lit "birthYear"; lit "deathYear";
   lit "primaryProfession"; lit "knownForTitles"].

Definition TITLE_COLS : list str :=
  [lit "tconst"; lit "titleType"; lit "primaryTitle"; lit "originalTitle";
   lit "isAdult"; lit "startYear"; lit "endYear"; lit "runtimeMinutes";
   lit "genres"].

Definition RATING_COLS : list str :=
  [lit "tconst"; lit "averageRating"; lit "numVotes"].

Definition col (name : string) (ty : coltype) : column_def :=
  ColumnDef (lit name) ty false.

Definition pk (name : string) (ty : coltype) : column_def :=
  ColumnDef (lit name) ty true.

(** [DDL_STATEMENTS]: six templates with the placeholder [{schema}]. *)
Definition DDL_STATEMENTS : list (str → stmt) :=
  [ λ schema, CreateSchemaIfNotExists schema;
    λ schema, CreateTableIfNotExists schema (lit "name_basics")
      [pk "nconst" TEXT; col "primary_name" TEXT; col "birth_year" INTEGER;
       col "death_year" INTEGER; col "primary_profession" TEXT;
       col "known_for_titles" TEXT];
    λ schema, CreateTableIfNotExists schema (lit "title_basics")
      [pk "tconst" TEXT; col "title_type" TEXT; col "primary_title" TEXT;
       col "original_title" TEXT; col "is_adult" SMALLINT;
       col "start_year" INTEGER; col "end_year" INTEGER;
       col "runtime_minutes" INTEGER; col "genres" TEXT];
    λ schema, CreateTableIfNotExists schema (lit "title_ratings")
      [pk "tconst" TEXT; col "average_rating" (NUMERIC 3 1);
       col "num_votes" INTEGER];
    λ schema, CreateIndexIfNotExists (lit "idx_title_basics_type") schema
      (lit "title_basics") (lit "title_type") false;
    λ schema, CreateIndexIfNotExists (lit "idx_title_ratings_votes") schema
      (lit "title_ratings") (lit "num_votes") true ].

(** The dictionary [mapping] local to [copy_tsv]. *)
Definition mapping : gmap str str :=
  list_to_map
    [ (lit "nconst", lit "nconst");
      (lit "primaryName", lit "primary_name");
      (lit "birthYear", lit "birth_year");
      (lit "deathYear", lit "death_year");
      (lit "primaryProfession", lit "primary_profession");
      (lit "knownForTitles", lit "known_for_titles");
      (lit "tconst", lit "tconst");
      (lit "titleType", lit "title_type");
      (lit "primaryTitle", lit "primary_title");
      (lit "originalTitle", lit "original_title");
      (lit "isAdult", lit "is_adult");
      (lit "startYear", lit "start_year");
      (lit "endYear", lit "end_year");
      (lit "runtimeMinutes", lit "runtime_minutes");
      (lit "genres", lit "genres");
      (lit "averageRating", lit "average_rating");
      (lit "numVotes", lit "num_votes") ].

(** [d[k]] on a dict. *)
Definition getitem (d : gmap str str) (k : str) : exn + str :=
  match d !! k with
  | Some v => inr v
  | None => inl (KeyError k)
  end.

(** [[f(c) for c in xs]] where [f] may raise: the first exception wins. *)
Fixpoint comprehension {A B} (f : A → exn + B) (xs : list A) : exn + list B :=
  match xs with
  | [] => inr []
  | x :: xs' =>
      match f x with
      | inl e => inl e
      | inr y =>
          match comprehension f xs' with
          | inl e => inl e
          | inr ys => inr (y :: ys)
          end
      end
  end.

(** The column list of the COPY statement, line 130. *)
Definition ordered_table_cols (tsv_header_cols_in_order : list str)
  : exn + list str :=
  comprehension (getitem mapping) tsv_header_cols_in_order.

(** The statement of lines 132-138.  In the Python literal [\t] is a TAB
    character and [\\N] is a backslash followed by N. *)
Definition copy_sql (schema table : str) (columns : list str) : stmt :=
  CopyFromStdinText schema table columns [TAB] [BACKSLASH; 78].

Definition header_warning (file_path : str) : str :=
  [9888; 65039] ++ lit " Header mismatch in " ++ file_path
  ++ lit ". Continuing load.".

Definition loaded_message (total : Z) (schema table file_path : str) : str :=
  lit "Loaded " ++ format_comma total ++ lit " rows into " ++ schema
  ++ [46] ++ table ++ lit " from " ++ basename file_path.

Definition done_message : str := [9989] ++ lit " Done.".

Section WithHost.
Context `{Host}.

(** A binary stream and a text stream over it.  Decompression and decoding
    happen as the stream is read, so a corrupt file opens and then fails
    at a read: [Broken] is the stream whose next read raises.  (The
    script's first read is always [readline]; a defect that lies further
    into a large file than the reader's buffer would in Python surface at
    the later read that reaches it.) *)
Inductive byte_stream := Bytes (content : bytes) | BrokenBytes (e : exn).
Inductive text_stream := Text (rest : str) | Broken (e : exn).

(** [gzip.open(path, "rb")] *)
Definition gzip_open (path : str) : exn + byte_stream :=
  match read_file path with
  | None => inl (FileNotFoundError path)
  | Some zbytes =>
      match gunzip zbytes with
      | Some b => inr (Bytes b)
      | None => inr (BrokenBytes BadGzipFile)
      end
  end.

(** [io.TextIOWrapper(raw, encoding="utf-8", newline="")] *)
Definition TextIOWrapper (raw : byte_stream) : text_stream :=
  match raw with
  | Bytes b =>
      match utf8_decode b with
      | Some s => Text s
      | None => Broken UnicodeDecodeError
      end
  | BrokenBytes e => Broken e
  end.

(** [open(path, "r", encoding="utf-8", newline="")] *)
Definition open_text (path : str) : exn + text_stream :=
  match read_file path with
  | None => inl (FileNotFoundError path)
  | Some b => inr (TextIOWrapper (Bytes b))
  end.

Definition open_textmaybe_gz (path : str) : exn + text_stream :=
  if endswith path (lit ".gz") then
    match gzip_open path with
    | inl e => inl e
    | inr raw => inr (TextIOWrapper raw)
    end
  else open_text path.

(** The connection object: the database as committed, the database as the
    open transaction sees it, and the requests sent so far. *)
Record session := Session {
  committed : pg_db;
  working : pg_db;
  sent : list request
}.

Record world := World {
  conn : session;
  stdout : list str
}.

(** Computations that read and change the world and may raise. *)
Definition M (A : Type) : Type := world → (exn + A) * world.

Definition raise {A} (e : exn) : M A := λ w, (inl e, w).

#[export] Instance M_ret : MRet M := λ A a w, (inr a, w).

#[export] Instance M_bind : MBind M := λ A B k m w,
  match m w with
  | (inl e, w') => (inl e, w')
  | (inr a, w') => k a w'
  end.

Definition lift {A} (r : exn + A) : M A :=
  match r with
  | inl e => raise e
  | inr a => mret a
  end.

(** [try: body finally: cleanup] *)
Definition try_finally {A} (body : M A) (cleanup : M unit) : M A := λ w,
  match body w with
  | (inl e, w') =>
      match cleanup w' with
      | (inl e', w'') => (inl e', w'')
      | (inr _, w'') => (inl e, w'')
      end
  | (inr a, w') =>
      match cleanup w' with
      | (inl e', w'') => (inl e', w'')
      | (inr _, w'') => (inr a, w'')
      end
  end.

(** [for x in xs: body(x)] *)
Fixpoint for_each {A} (xs : list A) (body : A → M unit) : M unit :=
  match xs with
  | [] => mret ()
  | x :: xs' => body x;; for_each xs' body
  end.

Definition print (line : str) : M unit := λ w,
  (inr (), World (conn w) (stdout w ++ [line])).

Definition log (r : request) (c : session) : session :=
  Session (committed c) (working c) (sent c ++ [r]).

(** [cur.execute(q)]; the value is what [cur.fetchone()] will find in the
    first column. *)
Definition execute (q : stmt) : M (option Z) := λ w,
  let c := log (Execute q) (conn w) in
  match pg_execute q (working c) with
  | inl msg => (inl (DatabaseError msg), World c (stdout w))
  | inr (db, r) =>
      (inr r, World (Session (committed c) db (sent c)) (stdout w))
  end.

(** [cur.fetchone()[0]] *)
Definition fetchone_0 (r : option Z) : M Z :=
  match r with
  | Some n => mret n
  | None => raise TypeError
  end.

(** [cur.copy_expert(q, f)]: the statement is sent and the rest of [f] is
    streamed to the server. *)
Definition copy_expert (q : stmt) (f : text_stream) : M unit := λ w,
  match f with
  | Broken e => (inl e, w)
  | Text data =>
      let c := log (CopyExpert q data) (conn w) in
      match pg_copy q data (working c) with
      | inl msg => (inl (DatabaseError msg), World c (stdout w))
      | inr db =>
          (inr (), World (Session (committed c) db (sent c)) (stdout w))
      end
  end.

(** [conn.commit()] *)
Definition commit : M unit := λ w,
  let c := conn w in
  (inr (), World (Session (working c) (working c) (sent c)) (stdout w)).

(** [conn.close()]: what was not committed is rolled back. *)
Definition close : M unit := λ w,
  let c := conn w in
  (inr (), World (Session (committed c) (committed c) (sent c)) (stdout w)).

(** [f.readline()]: the line and the stream after it. *)
Definition stream_readline (f : text_stream) : M (str * text_stream) :=
  match f with
  | Text s => let '(line, rest) := readline s in mret (line, Text rest)
  | Broken e => raise e
  end.

Definition run_ddl (schema : str) : M unit :=
  for_each DDL_STATEMENTS (λ stmt, execute (stmt schema);; mret ());;
  commit.

Definition truncate_table (schema table : str) : M unit :=
  execute (TruncateTable schema table);;
  commit.

(** [copy_tsv(conn, schema, table, file_path, table_cols_in_order,
    tsv_header_cols_in_order)]; the connection is the one of the world.
    Leaving the [with] block closes the file and the cursor, on every
    path; neither has a state of its own here. *)
Definition copy_tsv (schema table file_path : str)
    (table_cols_in_order tsv_header_cols_in_order : list str) : M unit :=
  ordered_table_cols ← lift (ordered_table_cols tsv_header_cols_in_order);
  let copy_sql := copy_sql schema table ordered_table_cols in
  f ← lift (open_textmaybe_gz file_path);
  '(header, f) ← stream_readline f;
  let expected := join [TAB] tsv_header_cols_in_order in
  (if bool_decide (strip header ≠ expected)
   then print (header_warning file_path)
   else mret ());;
  copy_expert copy_sql f;;
  r ← execute (SelectCount schema table);
  total ← fetchone_0 r;
  commit;;
  print (loaded_message total schema table file_path).

(** The parsed command line. *)
Record args := Args {
  dsn : str;
  schema : str;
  name : str;
  title : str;
  ratings : str;
  truncate : bool
}.

(** How a run of the script ends: with a return or an exception, what it
    wrote to the two output streams, and the connection if one was made.
    The traceback Python prints for an uncaught exception is not
    recorded. *)
Record process := Process {
  result : exn + ();
  proc_stdout : list str;
  proc_stderr : list str;
  proc_conn : option session
}.

(** The exit status Python gives the process. *)
Definition exit_status (p : process) : Z :=
  match result p with
  | inr _ => 0
  | inl (SystemExit code) => code
  | inl _ => 1
  end.

(** The second [try] block of [main], lines 188-244. *)
Definition main_connected (a : args) : M unit :=
  try_finally
    (run_ddl (schema a);;
     (if truncate a
      then for_each [lit "name_basics"; lit "title_basics"; lit "title_ratings"]
             (λ t, truncate_table (schema a) t)
      else mret ());;
     copy_tsv (schema a) (lit "name_basics") (name a)
       [lit "nconst"; lit "primary_name"; lit "birth_year"; lit "death_year";
        lit "primary_profession"; lit "known_for_titles"]
       NAME_COLS;;
     copy_tsv (schema a) (lit "title_basics") (title a)
       [lit "tconst"; lit "title_type"; lit "primary_title";
        lit "original_title"; lit "is_adult"; lit "start_year";
        lit "end_year"; lit "runtime_minutes"; lit "genres"]
       TITLE_COLS;;
     copy_tsv (schema a) (lit "title_ratings") (ratings a)
       [lit "tconst"; lit "average_rating"; lit "num_votes"]
       RATING_COLS;;
     print done_message)
    close.

(** [main()], from the parsed arguments on. *)
Definition main (a : args) : process :=
  match pg_connect (dsn a) with
  | inl e =>
      Process (inl (SystemExit 1)) []
        [lit "Failed to connect to Postgres: " ++ e] None
  | inr db =>
      let '(r, w) := main_connected a (World (Session db db []) []) in
      Process r (stdout w) [] (Some (conn w))
  end.

End WithHost.

End Loader.

Import Loader.

(** ** A server for the examples

    The properties of the loader hold for every host, those about stored
    rows for every server that meets the contract of [Sql].  To run the
    loader on concrete files a server is needed, and this is a small one:
    schemas, tables with their column definitions and primary key, and
    COPY in text format.  It is not PostgreSQL.  A row keeps the text of
    its fields: no escape is decoded and no column type is applied.  Data
    with a carriage return or a backslash-period it refuses, like a COPY
    that fails. *)

Module ExampleServer.

Abbreviation row := (gmap str str).

Record table := Table {
  columns : list column_def;
  rows : list row
}.

Record database := Database {
  schemas : gset str;
  tables : gmap (str * str) table
}.

Definition prepend (p : str) (pieces : list str) : list str :=
  match pieces with
  | [] => [p]
  | l :: ls => (p ++ l) :: ls
  end.

(** Cut at the occurrences of [sep] that no backslash protects.  A
    backslash and the character after it stay together in the piece. *)
Fixpoint split_unescaped (sep : N) (s : str) : list str :=
  match s with
  | [] => [[]]
  | c :: s' =>
      if c =? BACKSLASH then
        match s' with
        | c' :: s'' => prepend [c; c'] (split_unescaped sep s'')
        | [] => [[c]]
        end
      else if c =? sep then [] :: split_unescaped sep s'
      else prepend [c] (split_unescaped sep s')
  end.

(** The lines of the data: the text after the last newline is a line
    unless it is empty. *)
Definition data_lines (data : str) : list str :=
  let pieces := split_unescaped LF data in
  match last pieces with
  | Some [] => removelast pieces
  | _ => pieces
  end.

(** Does the line hold the sequence backslash-period, read left to right
    with backslash taking the next character? *)
Fixpoint has_end_marker (s : str) : bool :=
  match s with
  | [] => false
  | c :: s' =>
      if c =? BACKSLASH then
        match s' with
        | c' :: s'' => (c' =? 46) || has_end_marker s''
        | [] => false
        end
      else has_end_marker s'
  end.

(** The row a line of fields becomes: a field that is the null marker
    leaves its column absent, any other is stored under its column. *)
Definition row_of (cols : list str) (null : str) (fields : list str) : row :=
  list_to_map
    (omap (λ cf : str * str, if decide (cf.2 = null) then None else Some cf)
          (zip cols fields)).

Definition parse_line (cols : list str) (delimiter : N) (null : str)
    (line : str) : str + row :=
  if has_end_marker line then inl (lit "end-of-copy marker")
  else
    let fields := split_unescaped delimiter line in
    if decide (length fields = length cols)
    then inr (row_of cols null fields)
    else inl (lit "missing or extra data").

Fixpoint parse_lines (cols : list str) (delimiter : N) (null : str)
    (lines : list str) : str + list row :=
  match lines with
  | [] => inr []
  | l :: ls =>
      match parse_line cols delimiter null l with
      | inl e => inl e
      | inr r =>
          match parse_lines cols delimiter null ls with
          | inl e => inl e
          | inr rs => inr (r :: rs)
          end
      end
  end.

Definition primary_key (t : table) : list str :=
  col_name <$> filter (λ c, col_primary_key c = true) (columns t).

Definition key_of (key : list str) (r : row) : list (option str) :=
  (λ c, r !! c) <$> key.

(** Rows enter one by one; a row whose key has a NULL or is already in
    the table violates the primary key. *)
Fixpoint insert_rows (key : list str) (present : list row) (new : list row)
  : str + list row :=
  match new with
  | [] => inr present
  | r :: new' =>
      if decide (None ∈ key_of key r) then inl (lit "null value in key")
      else if decide (key_of key r ∈ key_of key <$> present)
      then inl (lit "duplicate key")
      else insert_rows key (present ++ [r]) new'
  end.

Definition copy_from (q : stmt) (data : str) (db : database)
  : str + database :=
  match q with
  | CopyFromStdinText schema name cols delimiter null =>
      match tables db !! (schema, name), delimiter with
      | None, _ => inl (lit "relation does not exist")
      | Some t, [d] =>
          if decide (cols ≠ [] ∧ NoDup cols ∧ cols ⊆ col_name <$> columns t)
          then
            if decide (CR ∈ data) then inl (lit "carriage return in data")
            else
              match parse_lines cols d null (data_lines data) with
              | inl e => inl e
              | inr new =>
                  match insert_rows (primary_key t) (rows t) new with
                  | inl e => inl e
                  | inr all =>
                      inr (Database (schemas db)
                             (<[(schema, name) := Table (columns t) all]>
                                (tables db)))
                  end
              end
          else inl (lit "column list")
      | Some _, _ => inl (lit "delimiter must be a single character")
      end
  | _ => inl (lit "not a COPY FROM STDIN")
  end.

Definition execute (q : stmt) (db : database)
  : str + database * option Z :=
  match q with
  | CreateSchemaIfNotExists schema =>
      inr (Database ({[schema]} ∪ schemas db) (tables db), None)
  | CreateTableIfNotExists schema name cols =>
      if decide (schema ∈ schemas db) then
        match tables db !! (schema, name) with
        | Some _ => inr (db, None)
        | None =>
            inr (Database (schemas db)
                   (<[(schema, name) := Table cols []]> (tables db)), None)
        end
      else inl (lit "schema does not exist")
  | CreateIndexIfNotExists _ schema name column _ =>
      match tables db !! (schema, name) with
      | Some t =>
          if decide (column ∈ col_name <$> columns t) then inr (db, None)
          else inl (lit "column does not exist")
      | None => inl (lit "relation does not exist")
      end
  | TruncateTable schema name =>
      match tables db !! (schema, name) with
      | Some t =>
          inr (Database (schemas db)
                 (<[(schema, name) := Table (columns t) []]> (tables db)), None)
      | None => inl (lit "relation does not exist")
      end
  | SelectCount schema name =>
      match tables db !! (schema, name) with
      | Some t => inr (db, Some (Z.of_nat (length (rows t))))
      | None => inl (lit "relation does not exist")
      end
  | CopyFromStdinText _ _ _ _ _ => inl (lit "COPY needs copy_expert")
  end.

(** The records of COPY data, as this server cuts them. *)
Definition records (delimiter data : str) : list (list str) :=
  match delimiter with
  | [d] => split_unescaped d <$> data_lines data
  | _ => []
  end.

(** The rows of a table, none if there is no such table. *)
Definition rows_of (db : database) (schema name : str) : list row :=
  match tables db !! (schema, name) with
  | Some t => rows t
  | None => []
  end.

End ExampleServer.

(** ** A gzip reader for stored blocks

    The hosts of the examples need some [gunzip].  This one reads a gzip
    member without optional header fields whose DEFLATE stream is made of
    stored (uncompressed) blocks, and checks the CRC-32 and the length in
    the trailer; on anything else it answers [None]. *)

Module Gzip.

Definition crc_bit (crc : N) : N :=
  if N.testbit crc 0 then N.lxor (N.shiftr crc 1) 3988292384
  else N.shiftr crc 1.

Definition crc_byte (crc : N) (b : byte) : N :=
  Nat.iter 8 crc_bit (N.lxor crc (Byte.to_N b)).

Definition crc32 (data : bytes) : N :=
  N.lxor (foldl crc_byte 4294967295 data) 4294967295.

Definition le16 (b0 b1 : byte) : N := Byte.to_N b0 + 256 * Byte.to_N b1.

Definition le32 (b0 b1 b2 b3 : byte) : N :=
  le16 b0 b1 + 65536 * le16 b2 b3.

(** The stored blocks up to the final one, and what follows them. *)
Fixpoint stored_blocks (fuel : nat) (bs : bytes) : option (bytes * bytes) :=
  match fuel, bs with
  | S fuel', h :: l0 :: l1 :: n0 :: n1 :: rest =>
      let len := N.to_nat (le16 l0 l1) in
      if negb (N.land (Byte.to_N h) 6 =? 0) then None
      else if negb (le16 l0 l1 + le16 n0 n1 =? 65535) then None
      else if bool_decide (length rest < len)%nat then None
      else if N.testbit (Byte.to_N h) 0 then Some (take len rest, drop len rest)
      else
        match stored_blocks fuel' (drop len rest) with
        | Some (more, trailer) => Some (take len rest ++ more, trailer)
        | None => None
        end
  | _, _ => None
  end.

Definition gunzip_stored (bs : bytes) : option bytes :=
  match bs with
  | x1f :: x8b :: x08 :: x00 :: _ :: _ :: _ :: _ :: _ :: _ :: deflate =>
      match stored_blocks (length deflate) deflate with
      | Some (data, [c0; c1; c2; c3; s0; s1; s2; s3]) =>
          if (crc32 data =? le32 c0 c1 c2 c3)
             && (N.of_nat (length data) mod 4294967296 =? le32 s0 s1 s2 s3)
          then Some data else None
      | _ => None
      end
  | _ => None
  end.

(** One member holding [data] in a single stored block; [data] must be
    shorter than 65536 bytes. *)
Definition byte_of (n : N) : byte :=
  default x00 (Byte.of_N (n mod 256)).

Definition le16_bytes (n : N) : bytes := [byte_of n; byte_of (n / 256)].

Definition le32_bytes (n : N) : bytes :=
  le16_bytes (n mod 65536) ++ le16_bytes (n / 65536).

Definition gzip_stored (data : bytes) : bytes :=
  let len := N.of_nat (length data) in
  [x1f; x8b; x08; x00; x00; x00; x00; x00; x00; xff]
  ++ [x01] ++ le16_bytes len ++ le16_bytes (65535 - len) ++ data
  ++ le32_bytes (crc32 data) ++ le32_bytes len.

End Gzip.

(** ** Hosts for the examples *)

Module Examples.

(** A host with the given files, the stored-block gzip reader and the
    example server. *)
Definition host (files : gmap str bytes)
    (server : str → str + ExampleServer.database) : Host :=
  {| read_file := λ p, files !! p;
     gunzip := Gzip.gunzip_stored;
     pg_db := ExampleServer.database;
     pg_connect := server;
     pg_execute := ExampleServer.execute;
     pg_copy := ExampleServer.copy_from |}.

(** The bytes of a tab-separated file with LF line ends. *)
Definition tsv_line (fields : list string) : bytes :=
  match fields with
  | [] => [x0a]
  | f :: fs => ascii_bytes f ++ foldr (λ g acc, x09 :: ascii_bytes g ++ acc) [x0a] fs
  end.

Definition tsv (lines : list (list string)) : bytes :=
  concat (tsv_line <$> lines).

Definition null_token : string := String "\" (String "N" EmptyString).

Definition ratings_tsv : bytes :=
  tsv [ ["tconst"; "averageRating"; "numVotes"];
        ["tt0000001"; "5.6"; "1645"];
        ["tt0000002"; null_token; "0"] ]%string.

Definition names_tsv : bytes :=
  tsv [ ["nconst"; "primaryName"; "birthYear"; "deathYear";
         "primaryProfession"; "knownForTitles"];
        ["nm0000001"; "Fred Astaire"; "1899"; "1987"; "actor"; "tt0050419"] ]%string.

Definition titles_tsv : bytes :=
  tsv [ ["tconst"; "titleType"; "primaryTitle"; "originalTitle"; "isAdult";
         "startYear"; "endYear"; "runtimeMinutes"; "genres"];
        ["tt0000001"; "short"; "Carmencita"; "Carmencita"; "0"; "1894";
         null_token; "1"; "Documentary"] ]%string.

(** A second batch of ratings, with a key of its own. *)
Definition more_ratings_tsv : bytes :=
  tsv [ ["tconst"; "averageRating"; "numVotes"];
        ["tt0000003"; "6.5"; "2148"] ]%string.

(** A ratings file with other names in its first line. *)
Definition renamed_tsv : bytes :=
  tsv [ ["id"; "rating"; "votes"];
        ["tt0000007"; "5.1"; "77"] ]%string.

(** A ratings file whose first line starts with a space. *)
Definition padded_tsv : bytes :=
  tsv [ [" tconst"; "averageRating"; "numVotes"];
        ["tt0000009"; "7.0"; "10"] ]%string.

Definition files : gmap str bytes :=
  list_to_map
    [ (lit "name.basics.tsv", names_tsv);
      (lit "title.basics.tsv", titles_tsv);
      (lit "title.ratings.tsv", ratings_tsv);
      (lit "title.ratings.tsv.gz", Gzip.gzip_stored ratings_tsv);
      (lit "more.ratings.tsv", more_ratings_tsv);
      (lit "padded.tsv", padded_tsv);
      (lit "renamed.tsv", renamed_tsv);
      (lit "empty.tsv", []) ].

Definition empty_db : ExampleServer.database := ExampleServer.Database ∅ ∅.

Definition up : str → str + ExampleServer.database := λ _, inr empty_db.

Definition down : str → str + ExampleServer.database :=
  λ _, inl (lit "connection refused").

(** The host of the examples, and the same host with the server down. *)
Definition online : Host := host files up.
Definition offline : Host := host files down.

(** The text of a file that decodes. *)
Definition text_of (b : bytes) : str := default [] (utf8_decode b).

(** The database once the six DDL statements have run for schema
    [imdb]. *)
Definition ready_db : ExampleServer.database :=
  foldl (λ db q, match ExampleServer.execute (q (lit "imdb")) db with
                 | inr (db', _) => db'
                 | inl _ => db
                 end)
        empty_db DDL_STATEMENTS.

(** A fresh connection to [ready_db]. *)
Definition fresh : @world online :=
  World (Session (ready_db : @pg_db online) ready_db []) [].

(** The world after the ratings file has been loaded over [fresh]. *)
Definition rated : @world online :=
  (copy_tsv (lit "imdb") (lit "title_ratings") (lit "title.ratings.tsv")
     [lit "tconst"; lit "average_rating"; lit "num_votes"] RATING_COLS
     fresh).2.

Definition cli : args :=
  Args (lit "postgresql://localhost/imdb") (lit "imdb")
       (lit "name.basics.tsv") (lit "title.basics.tsv")
       (lit "title.ratings.tsv") false.

End Examples.

(** ** The embedding at work *)

Section Runs.

Example strip_removes_the_line_end :
  strip (lit "tconst" ++ [TAB] ++ lit "numVotes " ++ [CR; LF])
  = lit "tconst" ++ [TAB] ++ lit "numVotes".
Proof. reflexivity. Qed.

Example readline_keeps_the_line_end :
  readline (lit "a" ++ [CR; LF] ++ lit "b" ++ [LF])
  = (lit "a" ++ [CR; LF], lit "b" ++ [LF]).
Proof. reflexivity. Qed.

Example format_comma_groups :
  format_comma 1234567 = lit "1,234,567" ∧ format_comma 0 = lit "0"
  ∧ format_comma 999 = lit "999" ∧ format_comma (-1000) = lit "-1,000".
Proof. by vm_compute. Qed.

Example basename_drops_directories :
  basename (lit "/data/imdb/title.ratings.tsv.gz") = lit "title.ratings.tsv.gz".
Proof. reflexivity. Qed.

Example utf8_decode_two_bytes :
  utf8_decode [x63; xc3; xa9] = Some [99; 233]
  ∧ utf8_decode [xc3] = None ∧ utf8_decode [xc0; x80] = None.
Proof. by vm_compute. Qed.

Example gunzip_stored_inverts_gzip_stored :
  Gzip.gunzip_stored (Gzip.gzip_stored Examples.ratings_tsv)
  = Some Examples.ratings_tsv.
Proof. vm_compute. reflexivity. Qed.

Example rating_columns :
  ordered_table_cols RATING_COLS
  = inr [lit "tconst"; lit "average_rating"; lit "num_votes"].
Proof. vm_compute. reflexivity. Qed.

(** A whole run: DDL, three loads, the final marker, exit status 0. *)
Example main_loads_the_three_files :
  let p := @main Examples.online Examples.cli in
  exit_status p = 0%Z
  ∧ proc_stdout p
    = [ loaded_message 1 (lit "imdb") (lit "name_basics") (lit "name.basics.tsv");
        loaded_message 1 (lit "imdb") (lit "title_basics") (lit "title.basics.tsv");
        loaded_message 2 (lit "imdb") (lit "title_ratings")
          (lit "title.ratings.tsv");
        done_message ]
  ∧ (length ∘ sent <$> proc_conn p) = Some 12%nat.
Proof. cbv zeta. repeat split; vm_compute; reflexivity. Qed.

(** A second load of the same keys violates the primary key: the run
    ends with the database error and the table is as it was. *)
Example reload_without_truncate_fails :
  let run := copy_tsv (lit "imdb") (lit "title_ratings")
               (lit "title.ratings.tsv") [] RATING_COLS Examples.rated in
  run.1 = inl (DatabaseError (lit "duplicate key"))
  ∧ ExampleServer.rows_of (committed (conn run.2)) (lit "imdb") (lit "title_ratings")
    = ExampleServer.rows_of (committed (conn Examples.rated)) (lit "imdb")
        (lit "title_ratings").
Proof. cbv zeta. split; vm_compute; reflexivity. Qed.

End Runs.

(** ** Properties of the built-ins *)

Section PyFacts.

Lemma endswith_spec (s suffix : str) :
  endswith s suffix = true ↔ ∃ stem, s = stem ++ suffix.
Proof.
  unfold endswith. rewrite bool_decide_eq_true. split.
  - intros E. exists (take (length s - length suffix) s).
    pose proof (take_drop (length s - length suffix) s) as T.
    rewrite E in T. done.
  - intros [stem ->]. rewrite length_app.
    replace (length stem + length suffix - length suffix)%nat
      with (length stem) by lia.
    by rewrite drop_app_length.
Qed.

Lemma endswith_false (s suffix : str) :
  endswith s suffix = false ↔ ¬ ∃ stem, s = stem ++ suffix.
Proof.
  rewrite <- endswith_spec. destruct (endswith s suffix); split; done.
Qed.

Lemma readline_app (s : str) : s = (readline s).1 ++ (readline s).2.
Proof.
  induction s as [|c s IH]; [done|]. simpl.
  destruct (c =? LF); [done|].
  destruct (c =? CR).
  - destruct s as [|c' s']; [done|]. by destruct (c' =? LF).
  - destruct (readline s) as [l r]. simpl in *. by rewrite IH at 1.
Qed.

Lemma readline_one_line (s : str) :
  ∃ text term,
    (readline s).1 = text ++ term ∧ terminator term
    ∧ (LF ∉ text) ∧ (CR ∉ text)
    ∧ (term = [] → (readline s).2 = [])
    ∧ (term = [CR] → ∀ rest, (readline s).2 ≠ LF :: rest).
Proof.
  induction s as [|c s IH]; simpl.
  - exists [], []. repeat split; try constructor; try done; apply not_elem_of_nil.
  - destruct (c =? LF) eqn:Elf.
    { apply N.eqb_eq in Elf as ->. exists [], [LF].
      repeat split; try constructor; try done; apply not_elem_of_nil. }
    destruct (c =? CR) eqn:Ecr.
    { apply N.eqb_eq in Ecr as ->.
      destruct s as [|c' s'].
      - exists [], [CR].
        repeat split; try constructor; try done; apply not_elem_of_nil.
      - destruct (c' =? LF) eqn:E'.
        + apply N.eqb_eq in E' as ->. exists [], [CR; LF].
          repeat split; try constructor; try done; apply not_elem_of_nil.
        + exists [], [CR]. simpl.
          repeat split; try constructor; try done; try apply not_elem_of_nil.
          intros _ rest [= ->]. by rewrite N.eqb_refl in E'. }
    destruct IH as (text & term & E & T & Hlf & Hcr & Hend & Hnext).
    destruct (readline s) as [l r]. simpl in *. subst l.
    exists (c :: text), term.
    apply N.eqb_neq in Elf, Ecr.
    repeat split; try done; rewrite not_elem_of_cons; done.
Qed.

(** *** The UTF-8 codec *)

Lemma to_N_byte_of_N (n : N) : n < 256 → Byte.to_N (byte_of_N n) = n.
Proof.
  intros Hn. unfold byte_of_N.
  destruct (Byte.of_N n) as [b|] eqn:E.
  - simpl. by apply Byte.to_of_N.
  - apply Byte.of_N_None_iff in E. lia.
Qed.

Lemma byte_of_N_to_N (b : byte) : byte_of_N (Byte.to_N b) = b.
Proof. unfold byte_of_N. by rewrite Byte.of_to_N. Qed.


Ltac divmod c d :=
  let q := fresh "q" in let r := fresh "r" in
  pose proof (N.div_mod' c d);
  pose proof (N.mod_lt c d ltac:(lia));
  set (q := c / d) in *; set (r := c mod d) in *; clearbody q r.


Ltac decide_tests :=
  repeat match goal with
  | |- context [?a <? ?b] =>
      (rewrite (proj2 (N.ltb_lt a b)) by lia)
      || (rewrite (proj2 (N.ltb_ge a b)) by lia)
  | |- context [?a <=? ?b] =>
      (rewrite (proj2 (N.leb_le a b)) by lia)
      || (rewrite (proj2 (N.leb_gt a b)) by lia)
  end.

Lemma decode_1 (b0 : byte) (rest : bytes) :
  Byte.to_N b0 < 128 →
  utf8_decode (b0 :: rest) = cons (Byte.to_N b0) <$> utf8_decode rest.
Proof. intros. simpl. by decide_tests. Qed.

Lemma decode_2 (b0 b1 : byte) (rest : bytes) :
  194 ≤ Byte.to_N b0 ≤ 223 → 128 ≤ Byte.to_N b1 ≤ 191 →
  utf8_decode (b0 :: b1 :: rest)
  = cons ((Byte.to_N b0 - 192) * 64 + (Byte.to_N b1 - 128))
      <$> utf8_decode rest.
Proof. intros. simpl. unfold continuation. by decide_tests. Qed.

Lemma decode_3 (b0 b1 b2 : byte) (rest : bytes) :
  let cp := (Byte.to_N b0 - 224) * 4096 + (Byte.to_N b1 - 128) * 64
            + (Byte.to_N b2 - 128) in
  224 ≤ Byte.to_N b0 ≤ 239 → 128 ≤ Byte.to_N b1 ≤ 191 →
  128 ≤ Byte.to_N b2 ≤ 191 → 2048 ≤ cp → cp < 55296 ∨ 57343 < cp →
  utf8_decode (b0 :: b1 :: b2 :: rest) = cons cp <$> utf8_decode rest.
Proof.
  intros cp ? ? ? ? Hs. subst cp. simpl. unfold continuation.
  destruct Hs; by decide_tests.
Qed.

Lemma decode_4 (b0 b1 b2 b3 : byte) (rest : bytes) :
  let cp := (Byte.to_N b0 - 240) * 262144 + (Byte.to_N b1 - 128) * 4096
            + (Byte.to_N b2 - 128) * 64 + (Byte.to_N b3 - 128) in
  240 ≤ Byte.to_N b0 ≤ 244 → 128 ≤ Byte.to_N b1 ≤ 191 →
  128 ≤ Byte.to_N b2 ≤ 191 → 128 ≤ Byte.to_N b3 ≤ 191 →
  65536 ≤ cp ≤ 1114111 →
  utf8_decode (b0 :: b1 :: b2 :: b3 :: rest) = cons cp <$> utf8_decode rest.
Proof.
  intros cp ? ? ? ? ?. subst cp. simpl. unfold continuation. by decide_tests.
Qed.

Lemma scalar_spec (c : N) :
  scalar c = true ↔ c < 55296 ∨ (57343 < c ∧ c < 1114112).
Proof.
  unfold scalar. rewrite orb_true_iff, andb_true_iff, !N.ltb_lt. tauto.
Qed.

Lemma decode_encode_char (c : N) (rest : bytes) :
  scalar c = true →
  utf8_decode (encode_char c ++ rest) = cons c <$> utf8_decode rest.
Proof.
  intros Hc%scalar_spec. unfold encode_char.
  destruct (N.ltb_spec c 128).
  { simpl app. rewrite decode_1; rewrite !to_N_byte_of_N; try lia. done. }
  destruct (N.ltb_spec c 2048).
  { simpl app. divmod c 64.
    rewrite decode_2; rewrite !to_N_byte_of_N; try lia.
    do 2 f_equal. lia. }
  destruct (N.ltb_spec c 65536).
  { simpl app. divmod c 4096. divmod c 64. divmod q0 64.
    rewrite decode_3; rewrite ?to_N_byte_of_N; try lia.
    do 2 f_equal. lia. }
  simpl app. divmod c 262144. divmod c 4096. divmod c 64.
  divmod q0 64. divmod q1 64.
  rewrite decode_4; rewrite ?to_N_byte_of_N; try lia.
  do 2 f_equal. lia.
Qed.

Lemma utf8_decode_encode (s : str) :
  forallb scalar s = true →
  utf8_decode (concat (encode_char <$> s)) = Some s.
Proof.
  induction s as [|c s IH]; [done|].
  simpl forallb. intros [Hc Hs]%andb_true_iff.
  change (utf8_decode (encode_char c ++ concat (encode_char <$> s))
          = Some (c :: s)).
  by rewrite decode_encode_char, (IH Hs).
Qed.

Lemma div_unique_N (a b q r : N) : a = b * q + r → r < b → a / b = q.
Proof. intros -> Hr. symmetry. by apply (N.div_unique _ _ q r). Qed.

Lemma mod_unique_N (a b q r : N) : a = b * q + r → r < b → a mod b = r.
Proof. intros -> Hr. symmetry. by apply (N.mod_unique _ _ q r). Qed.

Lemma encode_2 (b0 b1 : byte) :
  194 ≤ Byte.to_N b0 ≤ 223 → 128 ≤ Byte.to_N b1 ≤ 191 →
  encode_char ((Byte.to_N b0 - 192) * 64 + (Byte.to_N b1 - 128)) = [b0; b1].
Proof.
  intros H0 H1. set (cp := _ + _). unfold encode_char.
  assert (cp / 64 = Byte.to_N b0 - 192)
    by (apply (div_unique_N _ _ _ (Byte.to_N b1 - 128)); unfold cp; lia).
  assert (cp mod 64 = Byte.to_N b1 - 128)
    by (apply (mod_unique_N _ _ (Byte.to_N b0 - 192)); unfold cp; lia).
  assert (128 ≤ cp < 2048) by (unfold cp; lia).
  decide_tests. rewrite H, H2.
  replace (192 + (Byte.to_N b0 - 192)) with (Byte.to_N b0) by lia.
  replace (128 + (Byte.to_N b1 - 128)) with (Byte.to_N b1) by lia.
  by rewrite !byte_of_N_to_N.
Qed.

Lemma encode_3 (b0 b1 b2 : byte) :
  let cp := (Byte.to_N b0 - 224) * 4096 + (Byte.to_N b1 - 128) * 64
            + (Byte.to_N b2 - 128) in
  224 ≤ Byte.to_N b0 ≤ 239 → 128 ≤ Byte.to_N b1 ≤ 191 →
  128 ≤ Byte.to_N b2 ≤ 191 → 2048 ≤ cp →
  encode_char cp = [b0; b1; b2].
Proof.
  intros cp H0 H1 H2 Hcp. unfold encode_char.
  assert (cp / 4096 = Byte.to_N b0 - 224) as E0
    by (apply (div_unique_N _ _ _ ((Byte.to_N b1 - 128) * 64
                                    + (Byte.to_N b2 - 128)));
        unfold cp; lia).
  assert (cp / 64 = (Byte.to_N b0 - 224) * 64 + (Byte.to_N b1 - 128)) as E1
    by (apply (div_unique_N _ _ _ (Byte.to_N b2 - 128)); unfold cp; lia).
  assert (cp mod 64 = Byte.to_N b2 - 128) as E2
    by (apply (mod_unique_N _ _ ((Byte.to_N b0 - 224) * 64
                                  + (Byte.to_N b1 - 128)));
        unfold cp; lia).
  assert ((cp / 64) mod 64 = Byte.to_N b1 - 128) as E3
    by (rewrite E1; apply (mod_unique_N _ _ (Byte.to_N b0 - 224)); lia).
  assert (cp < 65536) by (unfold cp; lia).
  decide_tests. rewrite E0, E2, E3.
  replace (224 + (Byte.to_N b0 - 224)) with (Byte.to_N b0) by lia.
  replace (128 + (Byte.to_N b1 - 128)) with (Byte.to_N b1) by lia.
  replace (128 + (Byte.to_N b2 - 128)) with (Byte.to_N b2) by lia.
  by rewrite !byte_of_N_to_N.
Qed.

Lemma encode_4 (b0 b1 b2 b3 : byte) :
  let cp := (Byte.to_N b0 - 240) * 262144 + (Byte.to_N b1 - 128) * 4096
            + (Byte.to_N b2 - 128) * 64 + (Byte.to_N b3 - 128) in
  240 ≤ Byte.to_N b0 ≤ 244 → 128 ≤ Byte.to_N b1 ≤ 191 →
  128 ≤ Byte.to_N b2 ≤ 191 → 128 ≤ Byte.to_N b3 ≤ 191 → 65536 ≤ cp →
  encode_char cp = [b0; b1; b2; b3].
Proof.
  intros cp H0 H1 H2 H3 Hcp. unfold encode_char.
  assert (cp / 262144 = Byte.to_N b0 - 240) as E0
    by (apply (div_unique_N _ _ _ ((Byte.to_N b1 - 128) * 4096
                                    + (Byte.to_N b2 - 128) * 64
                                    + (Byte.to_N b3 - 128)));
        unfold cp; lia).
  assert (cp / 4096 = (Byte.to_N b0 - 240) * 64 + (Byte.to_N b1 - 128)) as E1
    by (apply (div_unique_N _ _ _ ((Byte.to_N b2 - 128) * 64
                                    + (Byte.to_N b3 - 128)));
        unfold cp; lia).
  assert (cp / 64 = (Byte.to_N b0 - 240) * 4096 + (Byte.to_N b1 - 128) * 64
                    + (Byte.to_N b2 - 128)) as E2
    by (apply (div_unique_N _ _ _ (Byte.to_N b3 - 128)); unfold cp; lia).
  assert (cp mod 64 = Byte.to_N b3 - 128) as E3
    by (apply (mod_unique_N _ _ ((Byte.to_N b0 - 240) * 4096
                                  + (Byte.to_N b1 - 128) * 64
                                  + (Byte.to_N b2 - 128)));
        unfold cp; lia).
  assert ((cp / 64) mod 64 = Byte.to_N b2 - 128) as E4
    by (rewrite E2;
        apply (mod_unique_N _ _ ((Byte.to_N b0 - 240) * 64
                                  + (Byte.to_N b1 - 128))); lia).
  assert ((cp / 4096) mod 64 = Byte.to_N b1 - 128) as E5
    by (rewrite E1; apply (mod_unique_N _ _ (Byte.to_N b0 - 240)); lia).
  decide_tests. rewrite E0, E3, E4, E5.
  replace (240 + (Byte.to_N b0 - 240)) with (Byte.to_N b0) by lia.
  replace (128 + (Byte.to_N b1 - 128)) with (Byte.to_N b1) by lia.
  replace (128 + (Byte.to_N b2 - 128)) with (Byte.to_N b2) by lia.
  replace (128 + (Byte.to_N b3 - 128)) with (Byte.to_N b3) by lia.
  by rewrite !byte_of_N_to_N.
Qed.

Ltac split_test :=
  match goal with
  | |- context [?a <? ?b] => destruct (N.ltb_spec a b)
  | |- context [?a <=? ?b] => destruct (N.leb_spec a b)
  end; simpl negb; simpl andb; simpl orb; cbv iota.

(** The first character of a text that decodes. *)
Lemma utf8_decode_cons (bs : bytes) (s : str) :
  utf8_decode bs = Some s →
  (bs = [] ∧ s = [])
  ∨ ∃ c bs' s',
      bs = encode_char c ++ bs' ∧ s = c :: s' ∧ scalar c = true
      ∧ utf8_decode bs' = Some s' ∧ (length bs' < length bs)%nat.
Proof.
  destruct bs as [|b0 bs1]; [intros [= <-]; by left|]. right.
  assert (Hfin : ∀ c bs' pre,
    encode_char c = pre → b0 :: bs1 = pre ++ bs' → pre ≠ [] →
    scalar c = true →
    cons c <$> utf8_decode bs' = Some s →
    ∃ c bs' s',
      b0 :: bs1 = encode_char c ++ bs' ∧ s = c :: s' ∧ scalar c = true
      ∧ utf8_decode bs' = Some s' ∧ (length bs' < length (b0 :: bs1))%nat).
  { intros c bs' pre Hpre Hbs Hne Hc Hdec.
    destruct (utf8_decode bs') as [s'|] eqn:E; [|done].
    injection Hdec as <-. exists c, bs', s'. rewrite Hpre, Hbs.
    repeat split; try done. rewrite length_app.
    destruct pre; [done | simpl; lia]. }
  revert H. cbn [utf8_decode]. cbv zeta. unfold continuation.
  repeat first
    [ split_test
    | match goal with
      | |- context [match ?l with [] => _ | _ :: _ => _ end] =>
          destruct l as [|? ?]
      end ]; try done.
  all: intros Hdec.
  all: first
    [ apply (Hfin (Byte.to_N b0) bs1 [b0]);
        [unfold encode_char; decide_tests; by rewrite byte_of_N_to_N
        |done|done|apply scalar_spec; lia|done]
    | exfalso; lia
    | match goal with
      | |- ∃ _ _ _, ?a :: ?b :: ?c :: ?d :: ?r = _ ∧ _ =>
          apply (Hfin _ r [a; b; c; d]
                   (encode_4 a b c d ltac:(lia) ltac:(lia) ltac:(lia)
                      ltac:(lia) ltac:(lia)));
            [done|done|apply scalar_spec; lia|exact Hdec]
      | |- ∃ _ _ _, ?a :: ?b :: ?c :: ?r = _ ∧ _ =>
          apply (Hfin _ r [a; b; c]
                   (encode_3 a b c ltac:(lia) ltac:(lia) ltac:(lia)
                      ltac:(lia)));
            [done|done|apply scalar_spec; lia|exact Hdec]
      | |- ∃ _ _ _, ?a :: ?b :: ?r = _ ∧ _ =>
          apply (Hfin _ r [a; b] (encode_2 a b ltac:(lia) ltac:(lia)));
            [done|done|apply scalar_spec; lia|exact Hdec]
      end ].
Qed.

(** A text decodes only from its own encoding. *)
Lemma utf8_decode_inv (bs : bytes) (s : str) :
  utf8_decode bs = Some s →
  forallb scalar s = true ∧ bs = concat (encode_char <$> s).
Proof.
  remember (length bs) as n eqn:Hn. revert bs s Hn.
  induction n as [n IH] using lt_wf_ind. intros bs s -> Hdec.
  apply utf8_decode_cons in Hdec
    as [[-> ->]|(c & bs' & s' & -> & -> & Hc & Hdec & Hlen)]; [done|].
  destruct (IH _ Hlen bs' s' eq_refl Hdec) as [Hs ->].
  split; [simpl; by rewrite Hc, Hs | done].
Qed.

(** Decoding inverts encoding, and nothing else decodes: bytes decode to
    a text exactly when they are its UTF-8 encoding. *)
Lemma utf8_decode_iff (raw : bytes) (s : str) :
  utf8_decode raw = Some s ↔ utf8_encode s = Some raw.
Proof.
  unfold utf8_encode. split.
  - intros [-> ->]%utf8_decode_inv. done.
  - destruct (forallb scalar s) eqn:E; [|done].
    intros [= <-]. by apply utf8_decode_encode.
Qed.

(** *** The thousands format *)

Lemma group3_rev_filter (l : list N) :
  filter (λ c, c ≠ 44) (group3_rev l) = filter (λ c, c ≠ 44) l.
Proof.
  remember (length l) as n eqn:Hn. revert l Hn.
  induction n as [n IH] using lt_wf_ind. intros l ->.
  destruct l as [|a [|b [|c [|d more]]]]; try done.
  change (group3_rev (a :: b :: c :: d :: more))
    with (a :: b :: c :: 44 :: group3_rev (d :: more)).
  rewrite !(filter_cons _ a), !(filter_cons _ b), !(filter_cons _ c).
  rewrite (filter_cons_False _ 44) by (by intros ?).
  rewrite (IH (length (d :: more))); [done | simpl; lia | done].
Qed.

Lemma digit_chars (u : Decimal.uint) :
  Forall (λ c, c ≠ 44) (lit (NilEmpty.string_of_uint u)).
Proof.
  induction u; simpl; unfold lit; simpl; try constructor; try done.
Qed.

Lemma decimal_chars (u : Decimal.uint) :
  Forall (λ c, c ≠ 44) (lit (NilZero.string_of_uint u)).
Proof.
  destruct u; try apply digit_chars. by repeat constructor.
Qed.

Lemma filter_all {A} (P : A → Prop) `{∀ x, Decision (P x)} (l : list A) :
  Forall P l → filter P l = l.
Proof.
  induction 1 as [|x l Hx Hl IH]; [done|].
  by rewrite filter_cons_True, IH.
Qed.

(** With the commas taken out, [format(n, ",")] is the decimal numeral. *)
Lemma format_comma_digits (n : Z) :
  filter (λ c, c ≠ 44) (format_comma n)
  = (if (n <? 0)%Z then [45] else [])
    ++ lit (NilZero.string_of_uint (N.to_uint (Z.abs_N n))).
Proof.
  unfold format_comma, digits.
  set (ds := lit _).
  assert (Hbody : filter (λ c, c ≠ 44) (reverse (group3_rev (reverse ds))) = ds).
  { rewrite filter_reverse, group3_rev_filter, filter_reverse,
      reverse_involutive.
    apply filter_all, decimal_chars. }
  destruct (n <? 0)%Z; [|done].
  etrans; [apply (filter_cons_True (λ c : N, c ≠ 44) 45); by intros ?|].
  by f_equal.
Qed.

End PyFacts.

(** ** Properties of the loader *)

Section ColumnMapper.

Lemma comprehension_inr {A B} (f : A → exn + B) (xs : list A) (ys : list B) :
  comprehension f xs = inr ys ↔ Forall2 (λ x y, f x = inr y) xs ys.
Proof.
  revert ys. induction xs as [|x xs IH]; intros ys; simpl.
  - split; [intros [= <-]; constructor | by inversion 1].
  - destruct (f x) as [e|y] eqn:Ex.
    + split; [done | inversion 1; congruence].
    + destruct (comprehension f xs) as [e|ys'] eqn:Exs.
      * split; [done|]. inversion 1 as [|? y' ? ys'' ? Hys]; subst.
        apply IH in Hys. done.
      * split.
        -- intros [= <-]. constructor; [done | by apply IH].
        -- inversion 1 as [|? y' ? ys'' Hy Hys]; subst.
           apply IH in Hys. congruence.
Qed.

Lemma comprehension_inl {A B} (f : A → exn + B) (xs : list A) (e : exn) :
  comprehension f xs = inl e → ∃ x, x ∈ xs ∧ f x = inl e.
Proof.
  induction xs as [|x xs IH]; simpl; [done|].
  destruct (f x) as [e'|y] eqn:Ex.
  - intros [= <-]. exists x. split; [left | done].
  - destruct (comprehension f xs) as [e'|ys]; [|done].
    intros [= <-]. destruct IH as (x' & Hin & Hx'); [done|].
    exists x'. split; [by right | done].
Qed.

Lemma comprehension_total {A B} (f : A → exn + B) (xs : list A) :
  (∀ x, x ∈ xs → ∃ y, f x = inr y) → ∃ ys, comprehension f xs = inr ys.
Proof.
  intros Hf. destruct (comprehension f xs) as [e|ys] eqn:E; [|by eexists].
  apply comprehension_inl in E as (x & Hin & Hx).
  destruct (Hf x Hin) as [y Hy]. congruence.
Qed.

(** The keys of [mapping] are the header fields of the three files. *)
Lemma mapping_keys (c : str) :
  is_Some (mapping !! c) ↔ c ∈ NAME_COLS ++ TITLE_COLS ++ RATING_COLS.
Proof.
  rewrite <- not_eq_None_Some. unfold mapping.
  rewrite <- not_elem_of_list_to_map.
  set (keys := (_.*1)).
  assert (Hk : keys ⊆ NAME_COLS ++ TITLE_COLS ++ RATING_COLS)
    by (apply (bool_decide_unpack _); vm_compute; exact I).
  assert (Hn : NAME_COLS ++ TITLE_COLS ++ RATING_COLS ⊆ keys)
    by (apply (bool_decide_unpack _); vm_compute; exact I).
  split.
  - intros Hc. apply Hk. by apply dec_stable.
  - intros Hc Hnot. apply Hnot. by apply Hn.
Qed.

Lemma getitem_mapping (c : str) :
  c ∈ NAME_COLS ++ TITLE_COLS ++ RATING_COLS →
  ∃ v, mapping !! c = Some v ∧ getitem mapping c = inr v.
Proof.
  intros Hc. apply mapping_keys in Hc as [v Hv].
  exists v. unfold getitem. by rewrite Hv.
Qed.

Lemma getitem_unknown (c : str) :
  c ∉ NAME_COLS ++ TITLE_COLS ++ RATING_COLS →
  getitem mapping c = inl (KeyError c).
Proof.
  intros Hc. unfold getitem.
  destruct (mapping !! c) as [v|] eqn:E; [|done].
  exfalso. apply Hc, mapping_keys. by eexists.
Qed.

End ColumnMapper.

Section MapperClaims.

(** C2: the Column Mapper is order-independent: for a header list drawn
    from the known field names and any permutation of it, the mapper
    succeeds on the permuted list, its output has the same length, and
    the element at each position is the destination column that
    [mapping] associates with the field name at that position. *)
Theorem column_mapper_order_independent (header shuffled : list str) :
  (∀ c, c ∈ header → c ∈ NAME_COLS ++ TITLE_COLS ++ RATING_COLS) →
  shuffled ≡ₚ header →
  ∃ cols,
    ordered_table_cols shuffled = inr cols
    ∧ length cols = length shuffled
    ∧ ∀ i c, shuffled !! i = Some c →
        ∃ v, mapping !! c = Some v ∧ cols !! i = Some v.
Proof.
  intros Hknown Hperm.
  destruct (comprehension_total (getitem mapping) shuffled) as [cols E].
  { intros c Hc. rewrite Hperm in Hc.
    destruct (getitem_mapping c (Hknown c Hc)) as (v & _ & Hv). by exists v. }
  exists cols. split; [done|].
  apply comprehension_inr in E.
  split; [symmetry; by eapply Forall2_length|].
  intros i c Hi.
  destruct (Forall2_lookup_l _ _ _ _ _ E Hi) as (v & Hv & Hget).
  exists v. split; [|done].
  unfold getitem in Hget. destruct (mapping !! c); congruence.
Qed.

Lemma column_mapper_order_independent_witness :
  ∃ cols,
    ordered_table_cols [lit "numVotes"; lit "tconst"; lit "averageRating"]
      = inr cols
    ∧ length cols = 3%nat
    ∧ ∀ i c, [lit "numVotes"; lit "tconst"; lit "averageRating"] !! i = Some c →
        ∃ v, mapping !! c = Some v ∧ cols !! i = Some v.
Proof.
  apply (column_mapper_order_independent RATING_COLS
           [lit "numVotes"; lit "tconst"; lit "averageRating"]).
  - intros c Hc. rewrite !elem_of_app. by right; right.
  - apply (Permutation_cons_append [lit "tconst"; lit "averageRating"]
             (lit "numVotes")).
Defined.

(** C4: [mapping] has an entry for each of the 6 person fields, the 9
    title fields and the 3 rating fields, so the mapper succeeds on the
    three known header lists; and on a header list that holds a name
    outside that set the mapper raises [KeyError] on such a name, and
    [copy_tsv] raises it before it opens the file, sends a statement or
    prints a line. *)
Theorem mapping_total_and_unknown_field_raises :
  (length NAME_COLS = 6 ∧ length TITLE_COLS = 9 ∧ length RATING_COLS = 3)%nat
  ∧ (∀ c, c ∈ NAME_COLS ++ TITLE_COLS ++ RATING_COLS → is_Some (mapping !! c))
  ∧ (∃ n t r, ordered_table_cols NAME_COLS = inr n
              ∧ ordered_table_cols TITLE_COLS = inr t
              ∧ ordered_table_cols RATING_COLS = inr r)
  ∧ ∀ (header : list str) (c : str),
      c ∈ header → c ∉ NAME_COLS ++ TITLE_COLS ++ RATING_COLS →
      ∃ k, k ∈ header ∧ (k ∉ NAME_COLS ++ TITLE_COLS ++ RATING_COLS)
        ∧ ordered_table_cols header = inl (KeyError k)
        ∧ ∀ (H : Host) schema table file_path table_cols w,
            copy_tsv schema table file_path table_cols header w
            = (inl (KeyError k), w).
Proof.
  split; [done|]. split; [intros c; apply mapping_keys|]. split.
  { do 3 eexists. repeat split; vm_compute; reflexivity. }
  intros header c Hin Hout.
  destruct (ordered_table_cols header) as [e|cols] eqn:E.
  - unfold ordered_table_cols in E.
    destruct (comprehension_inl _ _ _ E) as (k & Hk & Hget).
    assert (Hnone : mapping !! k = None ∧ e = KeyError k).
    { unfold getitem in Hget. destruct (mapping !! k); [done|].
      split; congruence. }
    destruct Hnone as [Hnone ->]. exists k.
    split; [done|]. split.
    { intros Hknown. apply mapping_keys in Hknown as [v Hv]. congruence. }
    split; [done|].
    intros H schema table file_path table_cols w.
    unfold copy_tsv, mbind, M_bind. unfold ordered_table_cols.
    by rewrite E.
  - exfalso. apply comprehension_inr in E.
    destruct (proj1 (list_elem_of_lookup _ _) Hin) as [i Hi].
    destruct (Forall2_lookup_l _ _ _ _ _ E Hi) as (v & _ & Hget).
    by rewrite (getitem_unknown c Hout) in Hget.
Qed.

Lemma mapping_total_and_unknown_field_raises_witness :
  ∃ k, k ∈ [lit "tconst"; lit "rating"]
    ∧ (k ∉ NAME_COLS ++ TITLE_COLS ++ RATING_COLS)
    ∧ ordered_table_cols [lit "tconst"; lit "rating"] = inl (KeyError k)
    ∧ ∀ (H : Host) schema table file_path table_cols w,
        copy_tsv schema table file_path table_cols
          [lit "tconst"; lit "rating"] w
        = (inl (KeyError k), w).
Proof.
  apply (proj2 (proj2 (proj2 mapping_total_and_unknown_field_raises))
           [lit "tconst"; lit "rating"] (lit "rating")).
  - by right; left.
  - apply (bool_decide_unpack _). vm_compute. exact I.
Defined.

End MapperClaims.

Section ReaderClaims.
Context `{Host}.

Lemma not_gz_suffix (stem tail : str) :
  length tail = 3%nat → tail ≠ lit ".gz" →
  endswith (stem ++ tail) (lit ".gz") = false.
Proof.
  intros Hlen Hne. apply endswith_false. intros [stem' E].
  apply app_inj_2 in E as [_ E]; [done|]. by rewrite Hlen.
Qed.

(** C9: compression is detected by an exact, case-sensitive test of the
    last three characters: a path is opened through gzip exactly when it
    is some stem followed by [.gz]; a path that does not end so, among
    them every path ending in [.GZ], [.Gz], [.gZ] or [.tgz], is opened as
    plain UTF-8 text. *)
Theorem gz_suffix_is_exact_and_case_sensitive (path : str) :
  (endswith path (lit ".gz") = true ↔ ∃ stem, path = stem ++ lit ".gz")
  ∧ (∀ stem, open_textmaybe_gz (stem ++ lit ".gz")
             = match gzip_open (stem ++ lit ".gz") with
               | inl e => inl e
               | inr raw => inr (TextIOWrapper raw)
               end)
  ∧ ((¬ ∃ stem, path = stem ++ lit ".gz") →
       open_textmaybe_gz path = open_text path)
  ∧ (∀ stem, open_textmaybe_gz (stem ++ lit ".GZ") = open_text (stem ++ lit ".GZ"))
  ∧ (∀ stem, open_textmaybe_gz (stem ++ lit ".Gz") = open_text (stem ++ lit ".Gz"))
  ∧ (∀ stem, open_textmaybe_gz (stem ++ lit ".gZ") = open_text (stem ++ lit ".gZ"))
  ∧ (∀ stem, open_textmaybe_gz (stem ++ lit ".tgz") = open_text (stem ++ lit ".tgz")).
Proof.
  split; [apply endswith_spec|]. split.
  { intros stem. unfold open_textmaybe_gz.
    by rewrite (proj2 (endswith_spec _ _) (ex_intro _ stem eq_refl)). }
  split.
  { intros Hno. unfold open_textmaybe_gz.
    by rewrite (proj2 (endswith_false _ _) Hno). }
  repeat split; intros stem; unfold open_textmaybe_gz;
    try (by rewrite not_gz_suffix).
  replace (stem ++ lit ".tgz") with ((stem ++ [46]) ++ lit "tgz")
    by (by rewrite <- app_assoc).
  by rewrite not_gz_suffix.
Qed.

End ReaderClaims.

Lemma gz_suffix_is_exact_and_case_sensitive_witness :
  @open_textmaybe_gz Examples.online (lit "title.ratings.tsv")
  = @open_text Examples.online (lit "title.ratings.tsv").
Proof.
  apply (@gz_suffix_is_exact_and_case_sensitive Examples.online
           (lit "title.ratings.tsv")).
  apply endswith_false. reflexivity.
Defined.

Section CopyTsv.
Context `{Host}.

Local Abbreviation transfer q f schema table file_path :=
  (copy_expert q f;;
   r ← execute (SelectCount schema table);
   total ← fetchone_0 r;
   commit;;
   print (loaded_message total schema table file_path)).

(** [copy_tsv] up to the header check, on a file that opens and reads. *)
Lemma copy_tsv_header_check schema table file_path table_cols header_cols
    cols s w :
  ordered_table_cols header_cols = inr cols →
  open_textmaybe_gz file_path = inr (Text s) →
  copy_tsv schema table file_path table_cols header_cols w
  = transfer (copy_sql schema table cols) (Text (readline s).2)
      schema table file_path
      (if bool_decide (strip (readline s).1 = join [TAB] header_cols)
       then w
       else World (conn w) (stdout w ++ [header_warning file_path])).
Proof.
  intros Ecols Eopen. unfold copy_tsv, mbind, M_bind.
  rewrite Ecols, Eopen. simpl.
  destruct (readline s) as [header rest]. simpl.
  destruct (decide (strip header = join [TAB] header_cols)) as [E|E].
  - rewrite (bool_decide_eq_false_2 (_ ≠ _)) by (by intros ?).
    rewrite (bool_decide_eq_true_2 (_ = _)) by done. simpl.
    by destruct w.
  - rewrite (bool_decide_eq_true_2 (_ ≠ _)) by done.
    rewrite (bool_decide_eq_false_2 (_ = _)) by done. reflexivity.
Qed.

(** Every way the transfer can end. *)
Lemma transfer_outcome q data schema table file_path w :
  let run := transfer q (Text data) schema table file_path w in
  let c1 := log (CopyExpert q data) (conn w) in
  match pg_copy q data (working (conn w)) with
  | inl msg => run = (inl (DatabaseError msg), World c1 (stdout w))
  | inr db1 =>
      let c2 := log (Execute (SelectCount schema table))
                  (Session (committed c1) db1 (sent c1)) in
      match pg_execute (SelectCount schema table) db1 with
      | inl msg => run = (inl (DatabaseError msg), World c2 (stdout w))
      | inr (db2, None) =>
          run = (inl TypeError,
                 World (Session (committed c2) db2 (sent c2)) (stdout w))
      | inr (db2, Some total) =>
          run = (inr (),
                 World (Session db2 db2 (sent c2))
                   (stdout w
                    ++ [loaded_message total schema table file_path]))
      end
  end.
Proof.
  unfold mbind, M_bind, copy_expert, execute, fetchone_0, commit, print.
  simpl.
  destruct (pg_copy q data (working (conn w))) as [msg|db1]; [done|]. simpl.
  destruct (pg_execute (SelectCount schema table) db1) as [msg|[db2 [n|]]];
    done.
Qed.

(** The transfer always sends the COPY request first, then at most the
    count query, and prints at most the line that reports the count. *)
Lemma transfer_sends_copy q data schema table file_path w :
  let w' := (transfer q (Text data) schema table file_path w).2 in
  (∃ later, sent (conn w') = sent (conn w) ++ CopyExpert q data :: later
            ∧ (later = [] ∨ later = [Execute (SelectCount schema table)]))
  ∧ (stdout w' = stdout w
     ∨ ∃ total,
         stdout w' = stdout w ++ [loaded_message total schema table file_path]).
Proof.
  pose proof (transfer_outcome q data schema table file_path w) as Hrun.
  simpl in *.
  destruct (pg_copy q data (working (conn w))) as [msg|db1].
  { rewrite Hrun. simpl. split; [exists []; by split; [|left] | by left]. }
  destruct (pg_execute (SelectCount schema table) db1) as [msg|[db2 [n|]]];
    rewrite Hrun; simpl; rewrite <- app_assoc; simpl;
    (split; [eexists; by split; [|right]
            | (by left) || (right; by eexists)]).
Qed.

(** A run of [copy_tsv] that returns has found the columns and read the
    file, the server has taken the data and answered the count query. *)
Lemma copy_tsv_returns schema table file_path table_cols header_cols w w' :
  copy_tsv schema table file_path table_cols header_cols w = (inr (), w') →
  ∃ cols s db1 db2 total,
    ordered_table_cols header_cols = inr cols
    ∧ open_textmaybe_gz file_path = inr (Text s)
    ∧ pg_copy (copy_sql schema table cols) (readline s).2 (working (conn w))
      = inr db1
    ∧ pg_execute (SelectCount schema table) db1 = inr (db2, Some total)
    ∧ conn w'
      = Session db2 db2
          (sent (conn w)
           ++ [CopyExpert (copy_sql schema table cols) (readline s).2;
               Execute (SelectCount schema table)])
    ∧ stdout w'
      = stdout w
        ++ (if bool_decide (strip (readline s).1 = join [TAB] header_cols)
            then [] else [header_warning file_path])
        ++ [loaded_message total schema table file_path].
Proof.
  intros Hrun.
  destruct (ordered_table_cols header_cols) as [e|cols] eqn:Ecols.
  { unfold copy_tsv, mbind, M_bind in Hrun. by rewrite Ecols in Hrun. }
  destruct (open_textmaybe_gz file_path) as [e|[s|e]] eqn:Eopen;
    try (unfold copy_tsv, mbind, M_bind in Hrun;
         by rewrite Ecols, Eopen in Hrun).
  rewrite (copy_tsv_header_check _ _ _ _ _ cols s) in Hrun by done.
  set (w1 := if bool_decide _ then w else _) in Hrun.
  assert (Hconn : conn w1 = conn w) by (unfold w1; by case_bool_decide).
  pose proof (transfer_outcome (copy_sql schema table cols) (readline s).2
                schema table file_path w1) as Hout.
  simpl in Hout. rewrite Hconn in Hout.
  destruct (pg_copy _ _ (working (conn w))) as [msg|db1] eqn:Ecopy;
    [congruence|].
  destruct (pg_execute _ db1) as [msg|[db2 [total|]]] eqn:Ecount;
    try congruence.
  rewrite Hout in Hrun. injection Hrun as <-.
  exists cols, s, db1, db2, total. simpl.
  split; [done|]. split; [done|]. split; [done|]. split; [done|].
  split; [by rewrite <- app_assoc|].
  unfold w1. case_bool_decide; simpl; [done | by rewrite <- app_assoc].
Qed.

(** The requests of a run, whichever way it ends: none, or the COPY
    statement built from the mapped header and then at most the count. *)
Lemma copy_tsv_requests schema table file_path table_cols header_cols w :
  let w' := (copy_tsv schema table file_path table_cols header_cols w).2 in
  ∃ new,
    sent (conn w') = sent (conn w) ++ new
    ∧ (new = []
       ∨ ∃ cols data later,
           ordered_table_cols header_cols = inr cols
           ∧ new = CopyExpert (copy_sql schema table cols) data :: later
           ∧ (later = [] ∨ later = [Execute (SelectCount schema table)])).
Proof.
  simpl.
  destruct (ordered_table_cols header_cols) as [e|cols] eqn:Ecols.
  { exists []. unfold copy_tsv, mbind, M_bind. rewrite Ecols. simpl.
    by rewrite app_nil_r; split; [|left]. }
  destruct (open_textmaybe_gz file_path) as [e|[s|e]] eqn:Eopen;
    try (exists []; unfold copy_tsv, mbind, M_bind; rewrite Ecols, Eopen;
         simpl; by rewrite app_nil_r; split; [|left]).
  rewrite (copy_tsv_header_check _ _ _ _ _ cols s) by done.
  set (w1 := if bool_decide _ then w else _).
  assert (Hconn : conn w1 = conn w) by (unfold w1; by case_bool_decide).
  destruct (transfer_sends_copy (copy_sql schema table cols) (readline s).2
              schema table file_path w1) as [(later & Hsent & Hlater) _].
  rewrite Hconn in Hsent. eexists. split; [exact Hsent|].
  right. by exists cols, (readline s).2, later.
Qed.

End CopyTsv.

(** ** Properties of the example server *)

Section ExampleServerFacts.
Import ExampleServer.

Lemma row_of_cons c cols null f fields :
  row_of (c :: cols) null (f :: fields)
  = if decide (f = null) then row_of cols null fields
    else <[c := f]> (row_of cols null fields).
Proof. unfold row_of. simpl. by destruct (decide (f = null)). Qed.

Lemma row_of_columns cols null fields c v :
  row_of cols null fields !! c = Some v → c ∈ cols.
Proof.
  revert fields. induction cols as [|c0 cols IH]; intros [|f fields];
    try (unfold row_of; simpl; done).
  rewrite row_of_cons. destruct (decide (f = null)).
  - intros Hc. right. by eapply IH.
  - destruct (decide (c0 = c)) as [->|Hne]; [by left|].
    rewrite lookup_insert_ne by done. intros Hc. right. by eapply IH.
Qed.

(** What a row holds for the column of a field. *)
Lemma row_of_lookup cols null fields i c f :
  NoDup cols → cols !! i = Some c → fields !! i = Some f →
  row_of cols null fields !! c = if decide (f = null) then None else Some f.
Proof.
  intros Hnd. revert fields i.
  induction Hnd as [|c0 cols Hnotin Hnd IH]; intros [|f0 fields] [|i]; try done.
  - simpl. intros [= ->] [= ->]. rewrite row_of_cons.
    destruct (decide (f = null)).
    + destruct (row_of cols null fields !! c) eqn:E; [|done].
      by apply row_of_columns in E.
    + by rewrite lookup_insert_eq.
  - simpl. intros Hc Hf. rewrite row_of_cons.
    assert (c0 ≠ c).
    { intros ->. apply Hnotin. by eapply list_elem_of_lookup_2. }
    destruct (decide (f0 = null)); [by eapply IH|].
    rewrite lookup_insert_ne by done. by eapply IH.
Qed.

Lemma parse_lines_inr cols d null lines new :
  parse_lines cols d null lines = inr new →
  Forall2 (λ line r, r = row_of cols null (split_unescaped d line)
                     ∧ length (split_unescaped d line) = length cols)
    lines new.
Proof.
  revert new. induction lines as [|l ls IH]; intros new; simpl.
  - intros [= <-]. constructor.
  - unfold parse_line. destruct (has_end_marker l); [done|].
    destruct (decide _) as [Hlen|]; [|done].
    destruct (parse_lines cols d null ls) as [e|rs]; [done|].
    intros [= <-]. constructor; [done | by apply IH].
Qed.

Lemma insert_rows_inr key present new all :
  insert_rows key present new = inr all → all = present ++ new.
Proof.
  revert present. induction new as [|r new IH]; intros present; simpl.
  - intros [= <-]. by rewrite app_nil_r.
  - destruct (decide _); [done|]. destruct (decide _); [done|].
    intros E. apply IH in E. by rewrite <- app_assoc in E.
Qed.

(** A COPY that succeeds appends one row per line of the data to the
    table and changes nothing else. *)
Lemma copy_from_inr schema name cols d null data db db' :
  copy_from (CopyFromStdinText schema name cols [d] null) data db = inr db' →
  ∃ t new,
    tables db !! (schema, name) = Some t
    ∧ NoDup cols
    ∧ parse_lines cols d null (data_lines data) = inr new
    ∧ db' = Database (schemas db)
              (<[(schema, name) := Table (columns t) (rows t ++ new)]>
                 (tables db)).
Proof.
  unfold copy_from.
  destruct (tables db !! (schema, name)) as [t|]; [|done].
  destruct (decide _) as [(Hne & Hnd & Hsub)|]; [|done].
  destruct (decide (CR ∈ data)); [done|].
  destruct (parse_lines cols d null (data_lines data)) as [e|new]; [done|].
  destruct (insert_rows (primary_key t) (rows t) new) as [e|all] eqn:E; [done|].
  apply insert_rows_inr in E as ->. intros [= <-]. by exists t, new.
Qed.

Lemma copy_from_rows schema name cols d null data db db' :
  copy_from (CopyFromStdinText schema name cols [d] null) data db = inr db' →
  ∃ new,
    NoDup cols
    ∧ parse_lines cols d null (data_lines data) = inr new
    ∧ rows_of db' schema name = rows_of db schema name ++ new.
Proof.
  intros E. apply copy_from_inr in E as (t & new & Ht & Hnd & Hnew & ->).
  exists new. split; [done|]. split; [done|].
  unfold rows_of. simpl. by rewrite lookup_insert_eq, Ht.
Qed.

Lemma select_count_inr schema name db db' r :
  ExampleServer.execute (SelectCount schema name) db = inr (db', r) →
  db' = db ∧ r = Some (Z.of_nat (length (rows_of db schema name))).
Proof.
  unfold rows_of. simpl. destruct (tables db !! (schema, name)); [|done].
  by intros [= <- <-].
Qed.

End ExampleServerFacts.

Section OrchestratorClaims.
Context `{Host}.

(** C7: when the initial connection fails, the script writes the failure
    to standard error and ends with [SystemExit(1)], so the exit status is
    1; nothing is written to standard output and no connection exists, so
    no DDL, no TRUNCATE and no COPY is sent. *)
Theorem connection_failure_exits_1 (a : args) (msg : str) :
  pg_connect (dsn a) = inl msg →
  result (main a) = inl (SystemExit 1)
  ∧ exit_status (main a) = 1%Z
  ∧ proc_stderr (main a) = [lit "Failed to connect to Postgres: " ++ msg]
  ∧ proc_stdout (main a) = []
  ∧ proc_conn (main a) = None.
Proof. intros E. unfold exit_status, main. by rewrite E. Qed.

(** C8: [table_cols_in_order] has no effect: with all other inputs equal,
    two values of it give the same result and the same world; and the
    requests of a run are none, or the COPY statement whose column list
    is the header list sent through [mapping], followed at most by the
    count query. *)
Theorem table_cols_in_order_has_no_effect
    (schema table file_path : str) (table_cols table_cols' header_cols : list str)
    (w : world) :
  copy_tsv schema table file_path table_cols header_cols w
  = copy_tsv schema table file_path table_cols' header_cols w
  ∧ ∃ new,
      sent (conn (copy_tsv schema table file_path table_cols header_cols w).2)
      = sent (conn w) ++ new
      ∧ (new = []
         ∨ ∃ cols data later,
             ordered_table_cols header_cols = inr cols
             ∧ new = CopyExpert (copy_sql schema table cols) data :: later
             ∧ (later = [] ∨ later = [Execute (SelectCount schema table)])).
Proof. split; [reflexivity | apply copy_tsv_requests]. Qed.

(** C3, amended: the loader reads the first line of the file and compares
    it, with leading and trailing whitespace stripped, against the
    tab-joined expected header; it prints the warning exactly when the two
    differ, and in both cases goes on to send the COPY request with the
    rest of the file. *)
Theorem header_check_warns_and_load_proceeds
    (schema table file_path : str) (table_cols header_cols cols : list str)
    (s : str) (w : world) :
  ordered_table_cols header_cols = inr cols →
  open_textmaybe_gz file_path = inr (Text s) →
  let header := (readline s).1 in
  let data := (readline s).2 in
  let w' := (copy_tsv schema table file_path table_cols header_cols w).2 in
  s = header ++ data
  ∧ (∃ later,
       sent (conn w')
       = sent (conn w) ++ CopyExpert (copy_sql schema table cols) data :: later)
  ∧ ∃ report,
      stdout w'
      = stdout w
        ++ (if bool_decide (strip header = join [TAB] header_cols)
            then [] else [header_warning file_path])
        ++ report
      ∧ (report = []
         ∨ ∃ total, report = [loaded_message total schema table file_path]).
Proof.
  intros Ecols Eopen. simpl. split; [apply readline_app|].
  rewrite (copy_tsv_header_check _ _ _ _ _ cols s) by done.
  set (w1 := if bool_decide _ then w else _).
  assert (Hconn : conn w1 = conn w) by (unfold w1; by case_bool_decide).
  assert (Hout : stdout w1
                 = stdout w
                   ++ (if bool_decide (strip (readline s).1
                                       = join [TAB] header_cols)
                       then [] else [header_warning file_path])).
  { unfold w1. case_bool_decide; simpl; [by rewrite app_nil_r | done]. }
  destruct (transfer_sends_copy (copy_sql schema table cols) (readline s).2
              schema table file_path w1)
    as [(later & Hsent & _) [Hsame|[total Hrep]]];
    rewrite Hconn in Hsent.
  - split; [by exists later|]. exists []. split; [|by left].
    by rewrite Hsame, Hout, app_nil_r.
  - split; [by exists later|]. eexists. split; [|right; by exists total].
    by rewrite Hrep, Hout, <- app_assoc.
Qed.

End OrchestratorClaims.

Lemma connection_failure_exits_1_witness :
  exit_status (@main Examples.offline Examples.cli)
  = 1%Z.
Proof.
  apply (@connection_failure_exits_1
           Examples.offline Examples.cli
           (lit "connection refused")).
  reflexivity.
Defined.

Lemma header_check_warns_and_load_proceeds_witness :
  let s := Examples.text_of Examples.renamed_tsv in
  let w' := (copy_tsv (lit "imdb") (lit "title_ratings") (lit "renamed.tsv")
               [] RATING_COLS Examples.fresh).2 in
  s = (readline s).1 ++ (readline s).2
  ∧ (∃ later,
       sent (conn w')
       = [] ++ CopyExpert (copy_sql (lit "imdb") (lit "title_ratings")
                             [lit "tconst"; lit "average_rating"; lit "num_votes"])
                 (readline s).2 :: later)
  ∧ ∃ report,
      stdout w'
      = [] ++ (if bool_decide (strip (readline s).1 = join [TAB] RATING_COLS)
               then [] else [header_warning (lit "renamed.tsv")])
        ++ report
      ∧ (report = []
         ∨ ∃ total,
             report = [loaded_message total (lit "imdb") (lit "title_ratings")
                         (lit "renamed.tsv")]).
Proof.
  apply (@header_check_warns_and_load_proceeds
           Examples.online
           (lit "imdb") (lit "title_ratings") (lit "renamed.tsv") [] RATING_COLS
           [lit "tconst"; lit "average_rating"; lit "num_votes"]
           (Examples.text_of Examples.renamed_tsv) Examples.fresh).
  - vm_compute. reflexivity.
  - vm_compute. reflexivity.
Defined.

(** C3, as stated, fails: the first line of this file is not the expected
    header, with or without its line end, and yet the load runs to its
    end without the warning. *)
Lemma header_check_is_not_verbatim :
  let s := Examples.text_of Examples.padded_tsv in
  let run := copy_tsv (lit "imdb") (lit "title_ratings") (lit "padded.tsv")
               [] RATING_COLS Examples.fresh in
  @open_textmaybe_gz Examples.online (lit "padded.tsv") = inr (Text s)
  ∧ (readline s).1 = [32] ++ join [TAB] RATING_COLS ++ [LF]
  ∧ (readline s).1 ≠ join [TAB] RATING_COLS
  ∧ (readline s).1 ≠ join [TAB] RATING_COLS ++ [LF]
  ∧ run.1 = inr ()
  ∧ stdout run.2
    = [loaded_message 1 (lit "imdb") (lit "title_ratings") (lit "padded.tsv")]
  ∧ (header_warning (lit "padded.tsv") ∉ stdout run.2).
Proof.
  cbv zeta. repeat split; try (vm_compute; reflexivity);
    try (vm_compute; discriminate).
  apply (bool_decide_unpack _). vm_compute. exact I.
Qed.
Section ReaderEquivalence.
Context `{Host}.

Local Abbreviation transfer q f schema table file_path :=
  (copy_expert q f;;
   r ← execute (SelectCount schema table);
   total ← fetchone_0 r;
   commit;;
   print (loaded_message total schema table file_path)).

(** The transfer does not look at what was printed or at the name of the
    file: from worlds with the same connection it ends the same way with
    the same connection. *)
Lemma transfer_same_conn q f schema table path1 path2 w1 w2 :
  conn w1 = conn w2 →
  (transfer q f schema table path1 w1).1 = (transfer q f schema table path2 w2).1
  ∧ conn (transfer q f schema table path1 w1).2
    = conn (transfer q f schema table path2 w2).2.
Proof.
  intros Hconn. destruct f as [data|e].
  - pose proof (transfer_outcome q data schema table path1 w1) as H1.
    pose proof (transfer_outcome q data schema table path2 w2) as H2.
    simpl in H1, H2. rewrite Hconn in H1.
    destruct (pg_copy q data (working (conn w2))) as [msg|db1].
    { by rewrite H1, H2. }
    destruct (pg_execute (SelectCount schema table) db1) as [msg|[db2 [n|]]];
      by rewrite H1, H2.
  - done.
Qed.

(** C6: the Transparent Reader opens a file that exists as a UTF-8 text
    stream: it returns the stream of a text exactly when the bytes of the
    file, gunzipped when the path ends with [.gz] and as they are
    otherwise, are the UTF-8 encoding of that text.  So of a file and a
    gzip copy of it the reader gives the same stream, and loading either
    ends the same way and leaves the same connection: the same requests
    sent, the same database. *)
Theorem compressed_and_plain_copies_load_alike :
  (∀ path b s,
     read_file path = Some b →
     (open_textmaybe_gz path = inr (Text s)
      ↔ ∃ raw,
          (if endswith path (lit ".gz") then gunzip b else Some b) = Some raw
          ∧ utf8_encode s = Some raw))
  ∧ (utf8_encode [233] = Some [xc3; xa9]
     ∧ utf8_encode [8364] = Some [xe2; x82; xac]
     ∧ utf8_encode [128512] = Some [xf0; x9f; x98; x80]
     ∧ utf8_encode [55296] = None)
  ∧ ∀ plain gz b zb,
      endswith plain (lit ".gz") = false →
      endswith gz (lit ".gz") = true →
      read_file plain = Some b →
      read_file gz = Some zb →
      gunzip zb = Some b →
      open_textmaybe_gz gz = open_textmaybe_gz plain
      ∧ ∀ schema table table_cols header_cols w,
          let from_gz := copy_tsv schema table gz table_cols header_cols w in
          let from_plain := copy_tsv schema table plain table_cols header_cols w in
          from_gz.1 = from_plain.1 ∧ conn from_gz.2 = conn from_plain.2.
Proof.
  assert (Hopen : ∀ path b,
     read_file path = Some b →
     open_textmaybe_gz path
     = inr (TextIOWrapper
              (if endswith path (lit ".gz")
               then match gunzip b with
                    | Some unzipped => Bytes unzipped
                    | None => BrokenBytes BadGzipFile
                    end
               else Bytes b))).
  { intros path b Hb. unfold open_textmaybe_gz, gzip_open, open_text.
    rewrite Hb. destruct (endswith path (lit ".gz")); [|done].
    by destruct (gunzip b). }
  split.
  { intros path b s Hb. rewrite (Hopen path b Hb). unfold TextIOWrapper.
    assert (Hraw : ∀ raw,
      inr (match utf8_decode raw with
           | Some t => Text t
           | None => Broken UnicodeDecodeError
           end) = (inr (Text s) : exn + text_stream)
      ↔ utf8_encode s = Some raw).
    { intros raw. rewrite <- utf8_decode_iff.
      destruct (utf8_decode raw); split; congruence. }
    destruct (endswith path (lit ".gz")).
    - destruct (gunzip b) as [raw|].
      + rewrite Hraw. split; [by exists raw | by intros (? & [= <-] & ?)].
      + split; [done | by intros (? & ? & ?)].
    - rewrite Hraw. split; [by exists b | by intros (? & [= <-] & ?)]. }
  split; [by vm_compute|].
  intros plain gz b zb Hplain Hgz Hb Hzb Hunzip.
  assert (Esame : open_textmaybe_gz gz = open_textmaybe_gz plain).
  { rewrite (Hopen gz zb), (Hopen plain b) by done.
    by rewrite Hgz, Hplain, Hunzip. }
  split; [done|].
  intros schema table table_cols header_cols w. cbv zeta.
  destruct (ordered_table_cols header_cols) as [e|cols] eqn:Ecols.
  { unfold copy_tsv, mbind, M_bind. by rewrite Ecols. }
  destruct (open_textmaybe_gz plain) as [e|[s|e]] eqn:Eopen;
    try (unfold copy_tsv, mbind, M_bind; by rewrite Ecols, Esame, Eopen).
  rewrite (copy_tsv_header_check _ _ gz _ _ cols s) by done.
  rewrite (copy_tsv_header_check _ _ plain _ _ cols s) by done.
  apply transfer_same_conn. by case_bool_decide.
Qed.

End ReaderEquivalence.

Lemma compressed_and_plain_copies_load_alike_witness :
  @open_textmaybe_gz Examples.online (lit "title.ratings.tsv.gz")
  = inr (Text (Examples.text_of Examples.ratings_tsv))
  ∧ @open_textmaybe_gz Examples.online (lit "title.ratings.tsv.gz")
    = @open_textmaybe_gz Examples.online (lit "title.ratings.tsv")
  ∧ ∀ schema table table_cols header_cols (w : @world Examples.online),
      let from_gz := copy_tsv schema table (lit "title.ratings.tsv.gz")
                       table_cols header_cols w in
      let from_plain := copy_tsv schema table (lit "title.ratings.tsv")
                          table_cols header_cols w in
      from_gz.1 = from_plain.1 ∧ conn from_gz.2 = conn from_plain.2.
Proof.
  split.
  - apply (proj1 (@compressed_and_plain_copies_load_alike Examples.online)
             (lit "title.ratings.tsv.gz")
             (Gzip.gzip_stored Examples.ratings_tsv)
             (Examples.text_of Examples.ratings_tsv)).
    + reflexivity.
    + exists Examples.ratings_tsv. split; vm_compute; reflexivity.
  - apply (proj2 (proj2 (@compressed_and_plain_copies_load_alike
                           Examples.online))
             (lit "title.ratings.tsv") (lit "title.ratings.tsv.gz")
             Examples.ratings_tsv (Gzip.gzip_stored Examples.ratings_tsv)).
    + reflexivity.
    + reflexivity.
    + reflexivity.
    + reflexivity.
    + vm_compute. reflexivity.
Defined.

(** ** The loader and the rows of a table *)

Section Contract.
Context `{Host} {V : Type}.
Variable stored : pg_db → str → str → list (gmap str V).
Variable records : str → str → list (list str).
Hypothesis Hcopy : copy_appends stored records.
Hypothesis Hcount : count_answers stored.

(** A run of [copy_tsv] that returns, on a server that meets the
    contract: the rows of the records of the file after its first line
    are appended and committed, and the count printed is the number of
    rows the table then has. *)
Lemma copy_tsv_returns_under_contract schema table file_path table_cols
    header_cols (w w' : world) :
  copy_tsv schema table file_path table_cols header_cols w = (inr (), w') →
  ∃ cols s new,
    ordered_table_cols header_cols = inr cols
    ∧ open_textmaybe_gz file_path = inr (Text s)
    ∧ sent (conn w')
      = sent (conn w)
        ++ [CopyExpert (copy_sql schema table cols) (readline s).2;
            Execute (SelectCount schema table)]
    ∧ stored (working (conn w')) schema table
      = stored (working (conn w)) schema table ++ new
    ∧ committed (conn w') = working (conn w')
    ∧ Forall2
        (λ (fields : list str) (r : gmap str V),
           ∀ i c field,
             cols !! i = Some c → fields !! i = Some field →
             (r !! c = None ↔ field = [BACKSLASH; 78]))
        (records [TAB] (readline s).2) new
    ∧ stdout w'
      = stdout w
        ++ (if bool_decide (strip (readline s).1 = join [TAB] header_cols)
            then [] else [header_warning file_path])
        ++ [loaded_message
              (Z.of_nat (length (stored (working (conn w)) schema table)
                         + length new))
              schema table file_path].
Proof.
  intros Hrun.
  apply copy_tsv_returns in Hrun
    as (cols & s & db1 & db2 & total & Ecols & Eopen & Ecopy & Ecount
        & Hconn & Hout).
  apply Hcopy in Ecopy as (new & Hrows & Hnew).
  apply Hcount in Ecount as [-> [= ->]].
  exists cols, s, new. rewrite Hconn, Hout, Hrows, length_app. simpl.
  by repeat split.
Qed.


End Contract.

Lemma returned {A W} (run : (exn + A) * W) (a : A) :
  run.1 = inr a → run = (inr a, run.2).
Proof. destruct run as [r w]. simpl. by intros ->. Qed.

(** The example server meets the contract. *)
Lemma example_copy_appends files server :
  @copy_appends (Examples.host files server) str
    ExampleServer.rows_of ExampleServer.records.
Proof.
  intros schema table cols delimiter null data db db' Hcopy.
  change (ExampleServer.copy_from
            (CopyFromStdinText schema table cols delimiter null) data db
          = inr db') in Hcopy.
  assert (∃ d, delimiter = [d]) as [d ->].
  { unfold ExampleServer.copy_from in Hcopy.
    destruct (ExampleServer.tables db !! (schema, table)); [|done].
    destruct delimiter as [|d [|? ?]]; by eauto. }
  apply copy_from_rows in Hcopy as (new & Hnd & Hnew & Hrows).
  exists new. split; [done|].
  apply parse_lines_inr in Hnew. unfold ExampleServer.records.
  apply Forall2_fmap_l. eapply Forall2_impl; [exact Hnew|].
  intros line r [-> _] i c field Hc Hfield. simpl.
  rewrite (row_of_lookup cols null _ i c field) by done.
  by destruct (decide (field = null)).
Qed.

Lemma example_count_answers files server :
  @count_answers (Examples.host files server) str ExampleServer.rows_of.
Proof.
  intros schema table db db' r Hcount.
  by apply select_count_inr in Hcount.
Qed.

(** C5: a run of [copy_tsv] that returns has sent the COPY request and
    then the count query for the destination table, and the line it
    prints last reports the answer to that query: the line reads
    Loaded, the number, rows into, the table, from, the file name, and the
    number with its commas taken out is the decimal numeral of the
    answer.  On a server that meets the contract the number reported is
    the number of rows the table had before the load plus the number of
    rows loaded. *)
Theorem reported_count_is_table_total :
  (∀ (H : Host) schema table file_path table_cols header_cols (w w' : world),
     copy_tsv schema table file_path table_cols header_cols w = (inr (), w') →
     ∃ cols data db1 db2 total,
       pg_copy (copy_sql schema table cols) data (working (conn w)) = inr db1
       ∧ pg_execute (SelectCount schema table) db1 = inr (db2, Some total)
       ∧ sent (conn w')
         = sent (conn w)
           ++ [CopyExpert (copy_sql schema table cols) data;
               Execute (SelectCount schema table)]
       ∧ last (stdout w')
         = Some (loaded_message total schema table file_path)
       ∧ ∃ shown,
           loaded_message total schema table file_path
           = lit "Loaded " ++ shown ++ lit " rows into " ++ schema ++ [46]
             ++ table ++ lit " from " ++ basename file_path
           ∧ filter (λ c, c ≠ 44) shown
             = (if (total <? 0)%Z then [45] else [])
               ++ lit (NilZero.string_of_uint (N.to_uint (Z.abs_N total))))
  ∧ ∀ (H : Host) (V : Type)
      (stored : pg_db → str → str → list (gmap str V))
      (records : str → str → list (list str)),
      copy_appends stored records → count_answers stored →
      ∀ schema table file_path table_cols header_cols (w w' : world),
        copy_tsv schema table file_path table_cols header_cols w
        = (inr (), w') →
        ∃ new shown,
          stored (working (conn w')) schema table
          = stored (working (conn w)) schema table ++ new
          ∧ last (stdout w')
            = Some (lit "Loaded " ++ shown ++ lit " rows into " ++ schema
                    ++ [46] ++ table ++ lit " from " ++ basename file_path)
          ∧ filter (λ c, c ≠ 44) shown
            = lit (NilZero.string_of_uint
                     (N.to_uint
                        (N.of_nat
                           (length (stored (working (conn w)) schema table)
                            + length new)))).
Proof.
  split.
  - intros H schema table file_path table_cols header_cols w w' Hrun.
    apply copy_tsv_returns in Hrun
      as (cols & s & db1 & db2 & total & _ & _ & Ecopy & Ecount & -> & ->).
    exists cols, (readline s).2, db1, db2, total.
    split; [done|]. split; [done|]. split; [done|].
    split; [by rewrite !app_assoc, last_snoc|].
    exists (format_comma total). split; [done | apply format_comma_digits].
  - intros H V stored records Hcopy Hcount schema table file_path table_cols
      header_cols w w' Hrun.
    apply (copy_tsv_returns_under_contract stored records Hcopy Hcount)
      in Hrun as (cols & s & new & _ & _ & _ & Hrows & _ & _ & ->).
    exists new,
      (format_comma
         (Z.of_nat (length (stored (working (conn w)) schema table)
                    + length new))).
    split; [done|].
    split; [change (lit "Loaded " ++ _) with
              (loaded_message
                 (Z.of_nat (length (stored (working (conn w)) schema table)
                            + length new)) schema table file_path);
            by rewrite !app_assoc, last_snoc|].
    rewrite format_comma_digits.
    replace (Z.of_nat _ <? 0)%Z with false by (symmetry; apply Z.ltb_ge; lia).
    simpl. do 3 f_equal. lia.
Qed.

Lemma reported_count_is_table_total_witness :
  let run := copy_tsv (lit "imdb") (lit "title_ratings")
               (lit "more.ratings.tsv") [] RATING_COLS Examples.rated in
  (length (ExampleServer.rows_of (working (conn Examples.rated)) (lit "imdb")
             (lit "title_ratings")) = 2%nat
   ∧ last (stdout run.2)
     = Some (lit "Loaded 3 rows into imdb.title_ratings from more.ratings.tsv"))
  ∧ ∃ new shown,
      ExampleServer.rows_of (working (conn run.2)) (lit "imdb")
        (lit "title_ratings")
      = ExampleServer.rows_of (working (conn Examples.rated)) (lit "imdb")
          (lit "title_ratings") ++ new
      ∧ last (stdout run.2)
        = Some (lit "Loaded " ++ shown ++ lit " rows into " ++ lit "imdb"
                ++ [46] ++ lit "title_ratings" ++ lit " from "
                ++ basename (lit "more.ratings.tsv"))
      ∧ filter (λ c, c ≠ 44) shown
        = lit (NilZero.string_of_uint
                 (N.to_uint
                    (N.of_nat
                       (length (ExampleServer.rows_of
                                  (working (conn Examples.rated)) (lit "imdb")
                                  (lit "title_ratings"))
                        + length new)))).
Proof.
  cbv zeta. split; [split; vm_compute; reflexivity|].
  apply (proj2 reported_count_is_table_total Examples.online str
           ExampleServer.rows_of ExampleServer.records
           (example_copy_appends Examples.files Examples.up)
           (example_count_answers Examples.files Examples.up)
           (lit "imdb") (lit "title_ratings") (lit "more.ratings.tsv")
           [] RATING_COLS Examples.rated).
  apply returned. vm_compute. reflexivity.
Defined.

(** C10: [copy_tsv] takes exactly one line off the stream, the first, and
    hands what follows it to the COPY request, whatever the header check
    found; so the first line never reaches the server.  For an empty file
    the data handed over is empty.  On a server that meets the contract
    the rows added are as many as the records of the data after the
    first line, and where empty data has no records an empty file leaves
    the table as it was. *)
Theorem first_line_is_consumed_not_loaded :
  (∀ (H : Host) schema table file_path table_cols header_cols cols s
     (w : world),
     ordered_table_cols header_cols = inr cols →
     open_textmaybe_gz file_path = inr (Text s) →
     let header := (readline s).1 in
     let data := (readline s).2 in
     let w' := (copy_tsv schema table file_path table_cols header_cols w).2 in
     s = header ++ data
     ∧ (∃ text term,
          header = text ++ term ∧ terminator term
          ∧ (LF ∉ text) ∧ (CR ∉ text)
          ∧ (term = [] → data = [])
          ∧ (term = [CR] → ∀ rest, data ≠ LF :: rest))
     ∧ (∃ later,
          sent (conn w')
          = sent (conn w)
            ++ CopyExpert (copy_sql schema table cols) data :: later
          ∧ (later = [] ∨ later = [Execute (SelectCount schema table)]))
     ∧ (s = [] → data = []))
  ∧ ∀ (H : Host) (V : Type)
      (stored : pg_db → str → str → list (gmap str V))
      (records : str → str → list (list str)),
      copy_appends stored records → count_answers stored →
      ∀ schema table file_path table_cols header_cols (w w' : world),
        copy_tsv schema table file_path table_cols header_cols w
        = (inr (), w') →
        ∃ s new,
          open_textmaybe_gz file_path = inr (Text s)
          ∧ stored (working (conn w')) schema table
            = stored (working (conn w)) schema table ++ new
          ∧ length new = length (records [TAB] (readline s).2)
          ∧ (s = [] → records [TAB] [] = [] →
             stored (working (conn w')) schema table
             = stored (working (conn w)) schema table).
Proof.
  split.
  - intros H schema table file_path table_cols header_cols cols s w
      Ecols Eopen. cbv zeta.
    split; [apply readline_app|]. split; [apply readline_one_line|]. split.
    + rewrite (copy_tsv_header_check _ _ _ _ _ cols s) by done.
      set (w1 := if bool_decide _ then w else _).
      assert (Hconn : conn w1 = conn w) by (unfold w1; by case_bool_decide).
      destruct (transfer_sends_copy (copy_sql schema table cols)
                  (readline s).2 schema table file_path w1) as [Hsent _].
      by rewrite Hconn in Hsent.
    + by intros ->.
  - intros H V stored records Hcopy Hcount schema table file_path table_cols
      header_cols w w' Hrun.
    apply (copy_tsv_returns_under_contract stored records Hcopy Hcount)
      in Hrun as (cols & s & new & _ & Eopen & _ & Hrows & _ & Hnew & _).
    exists s, new. split; [done|]. split; [done|].
    split; [symmetry; by eapply Forall2_length|].
    intros -> Hnone. simpl in Hnew. rewrite Hnone in Hnew.
    apply Forall2_nil_inv_l in Hnew as ->. by rewrite Hrows, app_nil_r.
Qed.

(** A file whose first line is not the expected header, and the empty
    file. *)
Lemma first_line_is_consumed_not_loaded_witness :
  let s := Examples.text_of Examples.renamed_tsv in
  let run := copy_tsv (lit "imdb") (lit "title_ratings") (lit "renamed.tsv")
               [] RATING_COLS Examples.fresh in
  let none := copy_tsv (lit "imdb") (lit "title_ratings") (lit "empty.tsv")
                [] RATING_COLS Examples.fresh in
  ((readline s).1 = lit "id" ++ [TAB] ++ lit "rating" ++ [TAB] ++ lit "votes"
                    ++ [LF]
   ∧ strip (readline s).1 ≠ join [TAB] RATING_COLS
   ∧ (readline s).2 = lit "tt0000007" ++ [TAB] ++ lit "5.1" ++ [TAB]
                      ++ lit "77" ++ [LF]
   ∧ ExampleServer.rows_of (working (conn run.2)) (lit "imdb")
       (lit "title_ratings")
     = [ list_to_map [ (lit "tconst", lit "tt0000007");
                       (lit "average_rating", lit "5.1");
                       (lit "num_votes", lit "77") ] ])
  ∧ (s = (readline s).1 ++ (readline s).2
     ∧ ∃ later,
         sent (conn run.2)
         = sent (conn Examples.fresh)
           ++ CopyExpert
                (copy_sql (lit "imdb") (lit "title_ratings")
                   [lit "tconst"; lit "average_rating"; lit "num_votes"])
                (readline s).2 :: later
         ∧ (later = []
            ∨ later = [Execute (SelectCount (lit "imdb")
                                  (lit "title_ratings"))]))
  ∧ (∃ later,
       sent (conn none.2)
       = sent (conn Examples.fresh)
         ++ CopyExpert
              (copy_sql (lit "imdb") (lit "title_ratings")
                 [lit "tconst"; lit "average_rating"; lit "num_votes"])
              [] :: later
       ∧ (later = []
          ∨ later = [Execute (SelectCount (lit "imdb")
                                (lit "title_ratings"))]))
  ∧ (∃ s' new,
       @open_textmaybe_gz Examples.online (lit "renamed.tsv")
       = inr (Text s')
       ∧ ExampleServer.rows_of (working (conn run.2)) (lit "imdb")
           (lit "title_ratings")
         = ExampleServer.rows_of (working (conn Examples.fresh)) (lit "imdb")
             (lit "title_ratings") ++ new
       ∧ length new
         = length (ExampleServer.records [TAB] (readline s').2)
       ∧ (s' = [] → ExampleServer.records [TAB] [] = [] →
          ExampleServer.rows_of (working (conn run.2)) (lit "imdb")
            (lit "title_ratings")
          = ExampleServer.rows_of (working (conn Examples.fresh))
              (lit "imdb") (lit "title_ratings")))
  ∧ ExampleServer.rows_of (working (conn none.2)) (lit "imdb")
      (lit "title_ratings")
    = ExampleServer.rows_of (working (conn Examples.fresh)) (lit "imdb")
        (lit "title_ratings").
Proof.
  cbv zeta.
  assert (Hrenamed :
    @open_textmaybe_gz Examples.online (lit "renamed.tsv")
    = inr (Text (Examples.text_of Examples.renamed_tsv)))
    by (vm_compute; reflexivity).
  assert (Hempty :
    @open_textmaybe_gz Examples.online (lit "empty.tsv") = inr (Text []))
    by (vm_compute; reflexivity).
  assert (Hcols :
    ordered_table_cols RATING_COLS
    = inr [lit "tconst"; lit "average_rating"; lit "num_votes"])
    by (vm_compute; reflexivity).
  split.
  { repeat split; try (vm_compute; reflexivity). vm_compute. discriminate. }
  split.
  { destruct (proj1 first_line_is_consumed_not_loaded Examples.online
                (lit "imdb") (lit "title_ratings") (lit "renamed.tsv") []
                RATING_COLS _ _ Examples.fresh Hcols Hrenamed)
      as (Happ & _ & Hsent & _).
    by split. }
  split.
  { destruct (proj1 first_line_is_consumed_not_loaded Examples.online
                (lit "imdb") (lit "title_ratings") (lit "empty.tsv") []
                RATING_COLS _ _ Examples.fresh Hcols Hempty)
      as (_ & _ & Hsent & _).
    exact Hsent. }
  split.
  { apply (proj2 first_line_is_consumed_not_loaded Examples.online str
             ExampleServer.rows_of ExampleServer.records
             (example_copy_appends Examples.files Examples.up)
             (example_count_answers Examples.files Examples.up)
             (lit "imdb") (lit "title_ratings") (lit "renamed.tsv") []
             RATING_COLS Examples.fresh).
    apply returned. vm_compute. reflexivity. }
  assert (Hnone :
    copy_tsv (lit "imdb") (lit "title_ratings") (lit "empty.tsv") []
      RATING_COLS Examples.fresh
    = (inr (),
       (copy_tsv (lit "imdb") (lit "title_ratings") (lit "empty.tsv") []
          RATING_COLS Examples.fresh).2))
    by (apply returned; vm_compute; reflexivity).
  destruct (proj2 first_line_is_consumed_not_loaded Examples.online str
              ExampleServer.rows_of ExampleServer.records
              (example_copy_appends Examples.files Examples.up)
              (example_count_answers Examples.files Examples.up)
              (lit "imdb") (lit "title_ratings") (lit "empty.tsv") []
              RATING_COLS Examples.fresh _ Hnone)
    as (s' & new & Hopen & _ & _ & Hsame).
  rewrite Hempty in Hopen. injection Hopen as <-.
  by apply Hsame.
Defined.

